(** * seer: population-structure correction and logistic association tests

    A shallow embedding of [src/panglossStruct.cpp] (pairwise distances and
    metric MDS) and of [src/seerBinaryAssoc.cpp] (the logistic fit cascade and
    the Wald test), with the properties of the specification stated over it.

    Conventions.
    - [arma::Mat<eT>] is the record [mat]: its two dimensions and an element
      accessor.  [arma::vec] is a matrix with one column, as in Armadillo.
    - [double] is Rocq's primitive IEEE-754 binary64 type [float].  The element
      type is kept generic where the source only adds, subtracts and takes
      absolute values, so that 0/1 data can also be read over [Z] (on such
      data every intermediate value is a small integer, which binary64
      represents exactly).
    - An exception is the [Throw] case of [result].  Armadillo's size checks
      on products, sums and element-wise operations and its bounds checks on
      element access are part of the operations.  A row copied into an
      [arma::vec] is read as the list of its elements.
    - The threaded distance loop is given twice: with every task reading
      its two rows when it is launched, and with every task reading them
      when its result is taken; the task holds references to the rows, and
      both are runs that [std::async] allows.
    - Sums are accumulated in index order and products of several matrices
      are taken from the left; Armadillo may group either differently, which
      changes rounding only.
    - What the sources include from headers that are not part of the two
      files (libm's [exp], [log] and [pow], [inv_covar], the normal
      distribution behind [normalPval], [eig_sym], dlib's optimiser, the two
      tuning constants) is a field of the class [Externals]. *)

From Stdlib Require Import String.
From Stdlib Require Import List Arith Bool ZArith Lia.
From Stdlib Require Import Floats Uint63.
Import ListNotations.

Set Implicit Arguments.

(** ** Element types *)

Class ElemType (eT : Type) := {
  e_zero : eT;
  e_add : eT -> eT -> eT;
  e_sub : eT -> eT -> eT;
  e_mul : eT -> eT -> eT;
  e_abs : eT -> eT
}.

#[export] Instance double_elem : ElemType float := {
  e_zero := 0%float;
  e_add := PrimFloat.add;
  e_sub := PrimFloat.sub;
  e_mul := PrimFloat.mul;
  e_abs := PrimFloat.abs
}.

#[export] Instance Z_elem : ElemType Z := {
  e_zero := 0%Z;
  e_add := Z.add;
  e_sub := Z.sub;
  e_mul := Z.mul;
  e_abs := Z.abs
}.

(** ** Matrices *)

Record mat (eT : Type) : Type := Mat {
  n_rows : nat;
  n_cols : nat;
  at_ : nat -> nat -> eT
}.

Arguments Mat {eT} _ _ _.


(** Agreement of dimensions and of every element. *)
Definition mat_same {eT} (A B : mat eT) : Prop :=
  n_rows A = n_rows B /\ n_cols A = n_cols B /\
  forall r c, at_ A r c = at_ B r c.

(** [A(i,j) = v] *)
Definition set_at {eT} (A : mat eT) (i j : nat) (v : eT) : mat eT :=
  Mat (n_rows A) (n_cols A)
      (fun r c => if (r =? i) && (c =? j) then v else at_ A r c).

(** [A.row(i)], as the list of its elements *)
Definition row {eT} (A : mat eT) (i : nat) : list eT :=
  map (at_ A i) (seq 0 (n_cols A)).

(** [accu(v)]: the sum of the elements *)
Definition accu {eT} `{ElemType eT} (v : list eT) : eT :=
  fold_left e_add v e_zero.

(** ** Distance engine ([panglossStruct.cpp]) *)

Module Distance.
Section Engine.
Context {eT : Type} `{ElemType eT}.

Record distance_element : Type := DistEl {
  el_row : nat;
  el_col : nat;
  el_distance : eT
}.

(** [accu(abs(vec_1 - vec_2))] *)
Definition distanceFunction (vec_1 vec_2 : list eT) : eT :=
  accu (map e_abs (map (fun p => e_sub (fst p) (snd p)) (combine vec_1 vec_2))).

Definition threadDistance (i j : nat) (row_1 row_2 : list eT) : distance_element :=
  DistEl i j (distanceFunction row_1 row_2).

(** [dist(d.row, d.col) = d.distance; dist(d.col, d.row) = d.distance] *)
Definition write_element (dist : mat eT) (d : distance_element) : mat eT :=
  set_at (set_at dist (el_row d) (el_col d) (el_distance d))
         (el_col d) (el_row d) (el_distance d).

(** The state of the threaded loop: the matrix and the queue of pending
    futures.  Here a task runs as soon as it is launched: its future is the
    element that [threadDistance] returns for the two rows as they are then,
    and [get] on the front of the queue yields it. *)
Definition state : Type := (mat eT * list distance_element)%type.

(** Body of the inner loop, threaded build.  [front] of an empty queue has
    no defined behaviour: [None]. *)
Definition inner_body (inMat : mat eT) (threads i : nat) (ref_row : list eT)
           (st : state) (j : nat) : option state :=
  let (dist, q) := st in
  if i =? j then Some (set_at dist i j e_zero, q)
  else
    let launch (dist : mat eT) (q : list distance_element) : state :=
      let new_row := row inMat j in
      (dist, q ++ [threadDistance i j ref_row new_row]) in
    if length q =? threads then
      match q with
      | d :: q' => Some (launch (write_element dist d) q')
      | [] => None
      end
    else Some (launch dist q).

Fixpoint inner_loop (inMat : mat eT) (threads i : nat) (ref_row : list eT)
         (js : list nat) (st : state) : option state :=
  match js with
  | [] => Some st
  | j :: js' =>
      match inner_body inMat threads i ref_row st j with
      | Some st' => inner_loop inMat threads i ref_row js' st'
      | None => None
      end
  end.

Fixpoint outer_loop (inMat : mat eT) (threads matSize : nat)
         (is_ : list nat) (st : state) : option state :=
  match is_ with
  | [] => Some st
  | i :: is' =>
      let ref_row := row inMat i in
      match inner_loop inMat threads i ref_row (seq i (matSize - i)) st with
      | Some st' => outer_loop inMat threads matSize is' st'
      | None => None
      end
  end.

(** [while (distance_calculations.size() > 0) ...] *)
Definition drain (st : state) : mat eT :=
  fold_left write_element (snd st) (fst st).

(** [dissimiliarityMatrix], threaded build.  [uninit] is what the freshly
    allocated [dist(matSize, matSize)] holds. *)
Definition dissimiliarityMatrix (uninit : nat -> nat -> eT)
           (inMat : mat eT) (threads : nat) : option (mat eT) :=
  let matSize := n_rows inMat in
  let dist := Mat matSize matSize uninit in
  match outer_loop inMat threads matSize (seq 0 matSize) (dist, []) with
  | Some st => Some (drain st)
  | None => None
  end.

(** The same function built with [NO_THREAD]: every pair is computed in
    place. *)
Definition inner_body_sync (inMat : mat eT) (i : nat) (ref_row : list eT)
           (dist : mat eT) (j : nat) : mat eT :=
  if i =? j then set_at dist i j e_zero
  else
    let dist1 := set_at dist i j (distanceFunction ref_row (row inMat j)) in
    set_at dist1 j i (at_ dist1 i j).

Definition outer_body_sync (inMat : mat eT) (matSize : nat)
           (dist : mat eT) (i : nat) : mat eT :=
  let ref_row := row inMat i in
  fold_left (inner_body_sync inMat i ref_row) (seq i (matSize - i)) dist.

Definition dissimiliarityMatrix_sync (uninit : nat -> nat -> eT)
           (inMat : mat eT) : mat eT :=
  let matSize := n_rows inMat in
  let dist := Mat matSize matSize uninit in
  fold_left (outer_body_sync inMat matSize) (seq 0 matSize) dist.


(** *** The threaded build when a task runs late

    The task is given [std::cref(ref_row)] and [std::cref(new_row)]:
    references to the two vectors of the loops, not their elements.
    [new_row] lives until the end of the block that launches the task and
    [ref_row] until the end of the pass of the outer loop, and the default
    launch policy lets the task run as late as [get].  Here every task runs
    at [get] and reads what the two vectors hold then, their storage keeping
    what was last written to it. *)

Record pending : Type := Pending {
  pe_row : nat;
  pe_col : nat
}.

(** The storage of the two vectors. *)
Record frame : Type := Frame {
  ref_row : list eT;
  new_row : list eT
}.

(** [get]: the task runs now. *)
Definition force (fr : frame) (p : pending) : distance_element :=
  threadDistance (pe_row p) (pe_col p) (ref_row fr) (new_row fr).

Definition late_state : Type := (mat eT * list pending * frame)%type.

Definition inner_body_late (inMat : mat eT) (threads i : nat)
           (st : late_state) (j : nat) : option late_state :=
  let '(dist, q, fr) := st in
  if i =? j then Some (set_at dist i j e_zero, q, fr)
  else
    let launch (dist : mat eT) (q : list pending) : late_state :=
      (dist, q ++ [Pending i j], Frame (ref_row fr) (row inMat j)) in
    if length q =? threads then
      match q with
      | p :: q' => Some (launch (write_element dist (force fr p)) q')
      | [] => None
      end
    else Some (launch dist q).

Fixpoint inner_loop_late (inMat : mat eT) (threads i : nat)
         (js : list nat) (st : late_state) : option late_state :=
  match js with
  | [] => Some st
  | j :: js' =>
      match inner_body_late inMat threads i st j with
      | Some st' => inner_loop_late inMat threads i js' st'
      | None => None
      end
  end.

Fixpoint outer_loop_late (inMat : mat eT) (threads matSize : nat)
         (is_ : list nat) (st : late_state) : option late_state :=
  match is_ with
  | [] => Some st
  | i :: is' =>
      let '(dist, q, fr) := st in
      let st1 := (dist, q, Frame (row inMat i) (new_row fr)) in
      match inner_loop_late inMat threads i (seq i (matSize - i)) st1 with
      | Some st' => outer_loop_late inMat threads matSize is' st'
      | None => None
      end
  end.

Definition dissimiliarityMatrix_late (uninit : nat -> nat -> eT)
           (inMat : mat eT) (threads : nat) : option (mat eT) :=
  let matSize := n_rows inMat in
  let dist := Mat matSize matSize uninit in
  match outer_loop_late inMat threads matSize (seq 0 matSize)
                        (dist, [], Frame [] []) with
  | Some (dist', q, fr) =>
      Some (fold_left (fun d p => write_element d (force fr p)) q dist')
  | None => None
  end.

(** *** Predicates used to state the loop invariants *)

Definition off_diagonal (q : list distance_element) : Prop :=
  Forall (fun d => el_row d <> el_col d) q.

(** The invariant of the threaded loops: the queue holds at most [threads]
    off-diagonal elements, and writing them out gives the matrix of the
    synchronous loop. *)
Definition related (threads : nat) (st : state) (D : mat eT) : Prop :=
  off_diagonal (snd st) /\ length (snd st) <= threads /\ mat_same (drain st) D.

(** What the finished matrix holds at [(r, c)]. *)
Definition pair_distance (inMat : mat eT) (r c : nat) : eT :=
  if r =? c then e_zero
  else distanceFunction (row inMat (Nat.min r c)) (row inMat (Nat.max r c)).

Definition settled (inMat D : mat eT) (r c : nat) : Prop :=
  at_ D r c = pair_distance inMat r c.

End Engine.

Arguments distance_element : clear implicits.
Arguments state : clear implicits.
Arguments frame : clear implicits.
Arguments late_state : clear implicits.

End Distance.

(** ** Reading the distance matrix of 0/1 data *)

(** Number of positions at which two rows differ. *)
Fixpoint differing (u v : list Z) : nat :=
  match u, v with
  | a :: u', b :: v' => (if Z.eqb a b then 0 else 1) + differing u' v'
  | _, _ => 0
  end.

(** Every element of the matrix is 0 or 1. *)
Definition binary (A : mat Z) : Prop :=
  forall i j, i < n_rows A -> j < n_cols A -> at_ A i j = 0%Z \/ at_ A i j = 1%Z.

(** A matrix given by its rows. *)
Definition mat_of_rows {eT} (default : eT) (rows : list (list eT)) : mat eT :=
  Mat (length rows) (length (hd [] rows))
      (fun i j => nth j (nth i rows []) default).

(** The elements of a matrix, row by row. *)
Definition entries {eT} (A : mat eT) : list (list eT) :=
  map (fun i => map (at_ A i) (seq 0 (n_cols A))) (seq 0 (n_rows A)).

(** Three samples over four features. *)
Definition sample_matrix : mat Z :=
  mat_of_rows 0%Z [[1; 0; 1; 1]; [0; 0; 1; 0]; [1; 1; 0; 1]]%Z.

Definition sample_matrix_double : mat float :=
  mat_of_rows 0%float [[1; 0; 1; 1]; [0; 0; 1; 0]; [1; 1; 0; 1]]%float.

(** ** Exceptions *)

Inductive result (A : Type) : Type :=
| Ok (a : A)
| Throw (what : string).

Arguments Ok {A} _.
Arguments Throw {A} _.

Definition bind {A B} (r : result A) (f : A -> result B) : result B :=
  match r with
  | Ok a => f a
  | Throw e => Throw e
  end.

Declare Scope result_scope.
Delimit Scope result_scope with result.
Notation "x <- r ;; k" := (bind r (fun x => k))
  (at level 61, r at next level, right associativity) : result_scope.
Notation "' p <- r ;; k" := (bind r (fun x => let p := x in k))
  (at level 61, p pattern, r at next level, right associativity) : result_scope.

(** ** Dense linear algebra on [double] (the Armadillo operations the sources
    use).  Operations that Armadillo checks for conforming sizes throw on a
    mismatch. *)

Module Arma.
Open Scope result_scope.
Open Scope float_scope.

Definition dmat : Type := mat float.

(** The sum [sum_{k < n} f k], accumulated from the left. *)
Definition sum_upto (n : nat) (f : nat -> float) : float :=
  fold_left PrimFloat.add (map f (seq 0 n)) 0.

Definition n_elem (A : dmat) : nat := n_rows A * n_cols A.

(** A matrix in dense storage: its elements are computed once, when it is
    built. *)
Definition tabulate (r c : nat) (f : nat -> nat -> float) : dmat :=
  let table := map (fun i => map (f i) (seq 0 c)) (seq 0 r) in
  Mat r c (fun i j => nth j (nth i table []) 0).

Definition same_size (A B : dmat) : bool :=
  (n_rows A =? n_rows B)%nat && (n_cols A =? n_cols B)%nat.

(** Element-wise unary operation, e.g. [exp(A)], [sqrt(A)], [square(A)],
    [-A], [s * A], [s - A]. *)
Definition map_mat (f : float -> float) (A : dmat) : dmat :=
  tabulate (n_rows A) (n_cols A) (fun i j => f (at_ A i j)).

(** Element-wise binary operation with the size check of [A + B], [A - B]
    and [A % B]. *)
Definition zip_mat (what : string) (f : float -> float -> float)
           (A B : dmat) : result dmat :=
  if same_size A B
  then Ok (tabulate (n_rows A) (n_cols A) (fun i j => f (at_ A i j) (at_ B i j)))
  else Throw what.

Definition add (A B : dmat) : result dmat := zip_mat "addition" PrimFloat.add A B.
Definition sub (A B : dmat) : result dmat := zip_mat "subtraction" PrimFloat.sub A B.
Definition schur (A B : dmat) : result dmat :=
  zip_mat "element-wise multiplication" PrimFloat.mul A B.

Definition square (A : dmat) : dmat := map_mat (fun x => x * x) A.
Definition sqrt (A : dmat) : dmat := map_mat PrimFloat.sqrt A.
Definition scale (s : float) (A : dmat) : dmat := map_mat (fun x => s * x) A.

Definition eye (r c : nat) : dmat := tabulate r c (fun i j => if (i =? j)%nat then 1 else 0).
Definition ones (r c : nat) : dmat := tabulate r c (fun _ _ => 1).
Definition zeros (r c : nat) : dmat := tabulate r c (fun _ _ => 0).
(** [v(n); v.fill(x)] *)
Definition filled (n : nat) (x : float) : dmat := tabulate n 1 (fun _ _ => x).

(** [A.t()] *)
Definition t (A : dmat) : dmat := tabulate (n_cols A) (n_rows A) (fun i j => at_ A j i).

(** [A * B] *)
Definition mul (A B : dmat) : result dmat :=
  if (n_cols A =? n_rows B)%nat
  then Ok (tabulate (n_rows A) (n_cols B)
               (fun i j => sum_upto (n_cols A) (fun k => at_ A i k * at_ B k j)))
  else Throw "matrix multiplication: incompatible matrix dimensions".

Definition is_vec (A : dmat) : bool := (n_cols A =? 1)%nat || (n_rows A =? 1)%nat.

(** The k-th element in column-major order, [A(k)] without the bounds check. *)
Definition lin (A : dmat) (k : nat) : float :=
  match n_rows A with
  | O => at_ A 0 0
  | S _ => at_ A (k mod n_rows A) (k / n_rows A)
  end.

(** [diagmat(A)]: a vector becomes the diagonal of a square matrix; of any
    other matrix only the diagonal is kept. *)
Definition diagmat (A : dmat) : dmat :=
  if is_vec A
  then tabulate (n_elem A) (n_elem A) (fun i j => if (i =? j)%nat then lin A i else 0)
  else tabulate (n_rows A) (n_cols A) (fun i j => if (i =? j)%nat then at_ A i j else 0).

(** [A * diagmat(d)], which Armadillo evaluates column by column:
    the result holds [A(i,j) * d(j)]. *)
Definition mul_diagmat (A d : dmat) : result dmat :=
  if (n_cols A =? n_elem d)%nat
  then Ok (tabulate (n_rows A) (n_elem d) (fun i j => at_ A i j * lin d j))
  else Throw "matrix multiplication: incompatible matrix dimensions".

(** [fliplr(A)] *)
Definition fliplr (A : dmat) : dmat :=
  tabulate (n_rows A) (n_cols A) (fun i j => at_ A i (n_cols A - 1 - j)).

(** An [int] or other integer converted to Armadillo's unsigned index type. *)
Definition to_uword (z : Z) : nat := Z.to_nat (z mod 2 ^ 64).

(** [A.cols(first, last)] *)
Definition cols (A : dmat) (first last : nat) : result dmat :=
  if (first <=? last)%nat && (last <? n_cols A)%nat
  then Ok (tabulate (n_rows A) (last - first + 1) (fun i j => at_ A i (first + j)))
  else Throw "Mat::cols(): indices out of bounds or incorrectly used".

(** [A.col(j)] as a vector *)
Definition col (A : dmat) (j : nat) : result dmat :=
  if (j <? n_cols A)%nat then Ok (tabulate (n_rows A) 1 (fun i _ => at_ A i j))
  else Throw "Mat::col(): index out of bounds".

(** [join_rows(A, B)]: the columns of [A] followed by those of [B]. *)
Definition join_rows (A B : dmat) : result dmat :=
  if (n_rows A =? n_rows B)%nat
  then Ok (tabulate (n_rows A) (n_cols A + n_cols B)
               (fun i j => if (j <? n_cols A)%nat then at_ A i j
                           else at_ B i (j - n_cols A)))
  else Throw "join_rows(): number of rows must be the same".

(** [A(i, j)] with its bounds check *)
Definition elem (A : dmat) (i j : nat) : result float :=
  if (i <? n_rows A)%nat && (j <? n_cols A)%nat then Ok (at_ A i j)
  else Throw "Mat::operator(): index out of bounds".

(** [v(i)] with its bounds check *)
Definition elem1 (v : dmat) (i : nat) : result float :=
  if (i <? n_elem v)%nat then Ok (lin v i)
  else Throw "Mat::operator(): index out of bounds".

(** [accu(A)] *)
Definition accu_mat (A : dmat) : float := sum_upto (n_elem A) (lin A).

(** [n] as a [double] *)
Definition of_nat (n : nat) : float :=
  PrimFloat.of_uint63 (Uint63.of_Z (Z.of_nat n)).

(** [mean(v)] *)
Definition mean (v : dmat) : result float :=
  if (n_elem v =? 0)%nat then Throw "mean(): object has no elements"
  else Ok (accu_mat v / of_nat (n_elem v)).

(** The elements of a vector as a list. *)
Definition elems (v : dmat) : list float := map (lin v) (seq 0 (n_elem v)).

(** A column vector from the list of its elements. *)
Definition colvec (l : list float) : dmat :=
  tabulate (length l) 1 (fun i _ => nth i l 0).

End Arma.

(** ** What the two files take from elsewhere *)

(** The C library, Armadillo's eigen-solver, dlib's optimiser, and the
    functions and constants that [seer.hpp] and [pangloss.hpp] declare. *)
Class Externals : Type := {
  (** [exp], [log] and [pow] of [<cmath>] *)
  c_exp : float -> float;
  c_log : float -> float;
  c_pow : float -> float -> float;
  (** [arma::eig_sym(eigval, eigvec, B)]: the eigenvalues, ascending, and
      the eigenvectors as columns *)
  eig_sym : Arma.dmat -> Arma.dmat * Arma.dmat;
  (** [inv_covar(A)] *)
  inv_covar : Arma.dmat -> result Arma.dmat;
  (** The standard normal distribution function used by [normalPval] *)
  normal_cdf : float -> float;
  (** [dlib::find_max] with the BFGS strategy on the logit likelihood of
      [(x_train, y_train)], from a starting point: the point it ends in, or
      the exception it raises *)
  find_max : Arma.dmat -> Arma.dmat -> Arma.dmat -> result Arma.dmat;
  convergence_limit : float;
  max_nr_iterations : nat
}.

(** ** MDS engine ([panglossStruct.cpp]) *)

Module MDS.
Import Arma.
Open Scope result_scope.
Open Scope float_scope.
(** The element [(i, j)] of the centring matrix [J = I - (1/n) 11']:
    [1 - 1/n] on the diagonal and [0 - 1/n] elsewhere. *)
Definition J_elem (n i j : nat) : float :=
  (if (i =? j)%nat then 1 else 0) - 1 / of_nat n * 1.

(** The element [(i, j)] of [-0.5 * J * P * J], the products taken from the
    left, for the squared distances [P] of [dist]. *)
Definition B_elem (n : nat) (dist : dmat) (i j : nat) : float :=
  sum_upto n (fun k =>
    sum_upto n (fun l => -0.5 * J_elem n i l * (at_ dist l k * at_ dist l k))
    * J_elem n k j).

Section Engine.
Context `{Externals}.

(** Steps 2 and 3: [B = -0.5 * J * P * J], the products taken from the left
    as the expression is written. *)
Definition centering (matSize : nat) : result dmat :=
  sub (eye matSize matSize)
      (scale (1 / of_nat matSize) (ones matSize matSize)).

Definition double_centered (matSize : nat) (P : dmat) : result dmat :=
  J <- centering matSize ;;
  JP <- mul (scale (-0.5) J) P ;;
  mul JP J.

(** [eig_sym] returns as many eigenvalues as the matrix has rows, and a
    square matrix of eigenvectors of the same size. *)
Definition eig_sym_shape (n : nat) : Prop :=
  forall B, n_rows B = n -> n_cols B = n ->
    n_rows (snd (eig_sym B)) = n /\ n_cols (snd (eig_sym B)) = n /\
    n_elem (fst (eig_sym B)) = n.

(** Steps 4 and 5 and the selection of the leading columns. *)
Definition embed (B : dmat) (dimensions : Z) : result dmat :=
  let '(eigval, eigvec) := eig_sym B in
  scaled <- mul_diagmat eigvec (sqrt eigval) ;;
  let mds := fliplr scaled in
  cols mds 0 (to_uword (dimensions - 1)).

(** [metricMDS] on the distances [dist] that [dissimiliarityMatrix]
    returned. *)
Definition metricMDS_of (matSize : nat) (dist : dmat) (dimensions : Z) : result dmat :=
  let P := square dist in
  B <- double_centered matSize P ;;
  embed B dimensions.

(** [metricMDS].  [None] is the undefined behaviour of the distance loop
    when it is given no worker. *)
Definition metricMDS (uninit : nat -> nat -> float) (populationMatrix : dmat)
           (dimensions : Z) (threads : nat) : option (result dmat) :=
  let matSize := n_rows populationMatrix in
  match Distance.dissimiliarityMatrix uninit populationMatrix threads with
  | Some dist => Some (metricMDS_of matSize dist dimensions)
  | None => None
  end.

End Engine.
End MDS.

(** ** Logit fitter and inference ([seerBinaryAssoc.cpp]) *)

Module Logit.
Import Arma.
Open Scope result_scope.
Open Scope float_scope.

(** The result fields of a [Kmer] and its comments, in the order they were
    added.  A field is [None] until it is set. *)
Record Kmer : Type := MkKmer {
  get_x : dmat;
  beta : option float;
  standard_error : option float;
  p_val : option float;
  comments : list string
}.

Definition set_beta (b : float) (k : Kmer) : Kmer :=
  MkKmer (get_x k) (Some b) (standard_error k) (p_val k) (comments k).
Definition set_standard_error (se : float) (k : Kmer) : Kmer :=
  MkKmer (get_x k) (beta k) (Some se) (p_val k) (comments k).
Definition set_p_val (p : float) (k : Kmer) : Kmer :=
  MkKmer (get_x k) (beta k) (standard_error k) (Some p) (comments k).
Definition add_comment (c : string) (k : Kmer) : Kmer :=
  MkKmer (get_x k) (beta k) (standard_error k) (p_val k) (comments k ++ [c]).

(** A call that updates the [Kmer] it was given and returns normally or
    leaves by an exception; the updates made before the exception stay. *)
Definition outcome : Type := (result unit * Kmer)%type.

Section Fitter.
Context `{Externals}.

(** Modelled from the spec: [normalPval], defined outside the two files,
    returns the two-sided upper-tail probability of a standard normal,
    2 * (1 - Phi(W)). *)
Definition normalPval (W : float) : float := 2 * (1 - normal_cdf W).

(** [log(mean(y_train)/(1 - mean(y_train)))] *)
Definition start_intercept (y_train : dmat) : result float :=
  m <- mean y_train ;;
  m' <- mean y_train ;;
  Ok (c_log (m / (1 - m'))).

(** The starting point of [doLogit]. *)
Definition doLogit_starting_point (y_train x_design : dmat) : result dmat :=
  b0 <- start_intercept y_train ;;
  Ok (Mat (n_cols x_design) 1
          (fun i _ => if (i =? 0)%nat then b0 else 1)).

(** The starting point of [newtonRaphson]. *)
Definition newtonRaphson_starting_point (y_train x_design : dmat) : result dmat :=
  b0 <- start_intercept y_train ;;
  let z := zeros (n_cols x_design) 1 in
  if (0 <? n_elem z)%nat
  then Ok (Mat (n_rows z) (n_cols z)
               (fun i j => if (i =? 0)%nat && (j =? 0)%nat then b0 else at_ z i j))
  else Throw "Mat::operator(): index out of bounds".

Definition predictLogitProbs (x b : dmat) : result dmat :=
  exponents <- mul x b ;;
  Ok (map_mat (fun e => 1 / (1 + c_exp (- e))) exponents).

(** [accu(y_trans % x.col(i) % x.col(j))] *)
Definition information_entry (x y_trans : dmat) (i j : nat) : result float :=
  ci <- col x i ;;
  yi <- schur y_trans ci ;;
  cj <- col x j ;;
  yij <- schur yi cj ;;
  Ok (accu_mat yij).

(** Element [(i, j)] of [X' W X] for the weights [y_trans]: the sum over
    the samples of [y_trans(k) * x(k,i) * x(k,j)]. *)
Definition information_sum (x y_trans : dmat) (i j : nat) : float :=
  sum_upto (n_rows x) (fun k => at_ y_trans k 0 * at_ x k i * at_ x k j).

(** The element at [(r, c)] of [I] is the sum computed for the pair taken
    in the upper triangle. *)
Definition mirrored (x y_trans I : dmat) (r c : nat) : Prop :=
  information_entry x y_trans (Nat.min r c) (Nat.max r c) = Ok (at_ I r c).

(** The inner loop of [varCovarMat]: [j] from [i] to [j_max - 1]. *)
Fixpoint information_row (x y_trans : dmat) (i : nat) (js : list nat)
         (I : dmat) : result dmat :=
  match js with
  | [] => Ok I
  | j :: js' =>
      v <- information_entry x y_trans i j ;;
      let I1 := set_at I i j v in
      let I2 := if (i =? j)%nat then I1 else set_at I1 j i (at_ I1 i j) in
      information_row x y_trans i js' I2
  end.

Fixpoint information_rows (x y_trans : dmat) (j_max : nat) (is_ : list nat)
         (I : dmat) : result dmat :=
  match is_ with
  | [] => Ok I
  | i :: is' =>
      I' <- information_row x y_trans i (seq i (j_max - i)) I ;;
      information_rows x y_trans j_max is' I'
  end.

(** The matrix [I] that [varCovarMat] fills before it inverts it. *)
Definition information (uninit : nat -> nat -> float) (x b : dmat) : result dmat :=
  y_pred <- predictLogitProbs x b ;;
  y_trans <- schur y_pred (map_mat (fun p => 1 - p) y_pred) ;;
  let I := Mat (n_elem b) (n_elem b) uninit in
  let j_max := n_rows I in
  information_rows x y_trans j_max (seq 0 (n_cols I)) I.

Definition varCovarMat (uninit : nat -> nat -> float) (x b : dmat) : result dmat :=
  I <- information uninit x b ;;
  inv_covar I.

(** [inv_covar(x_design.t() * diagmat(y_pred % (ones - y_pred)) * x_design)] *)
Definition iteration_covariance (x_design y_pred : dmat) : result dmat :=
  d <- sub (ones (n_rows y_pred) 1) y_pred ;;
  w <- schur y_pred d ;;
  xtw <- mul_diagmat (t x_design) w ;;
  xtwx <- mul xtw x_design ;;
  inv_covar xtwx.

(** Element [(i, j)] of the product [x.t() * diagmat(w) * x]: the sum over
    the samples of [x(k,i) * w(k) * x(k,j)]. *)
Definition weighted_gram (x w : dmat) (i j : nat) : float :=
  sum_upto (n_rows x) (fun k => at_ x k i * lin w k * at_ x k j).

(** The update of the plain Newton-Raphson branch:
    [b1 += var_covar_mat * x_design.t() * (y_train - y_pred)]. *)
Definition plain_update (x_design y_train y_pred var_covar_mat b0 : dmat) : result dmat :=
  vxt <- mul var_covar_mat (t x_design) ;;
  r <- sub y_train y_pred ;;
  step <- mul vxt r ;;
  add b0 step.

(** The update of the Firth branch, statement by statement. *)
Definition firth_update (x_design y_train y_pred var_covar_mat b0 : dmat) : result dmat :=
  (* arma::mat W = diagmat(y_pred * (1 - y_pred)); *)
  yy <- mul y_pred (map_mat (fun p => 1 - p) y_pred) ;;
  let W := diagmat yy in
  (* arma::mat H = sqrt(W) * x_design * inv_covar(x_design.t() * W * x_design)
                   * x_design.t() * sqrt(W); *)
  swx <- mul (sqrt W) x_design ;;
  xtw <- mul (t x_design) W ;;
  xtwx <- mul xtw x_design ;;
  inner <- inv_covar xtwx ;;
  h1 <- mul swx inner ;;
  h2 <- mul h1 (t x_design) ;;
  H_ <- mul h2 (sqrt W) ;;
  (* correction.fill(0.5) *)
  let correction := filled (n_rows y_train) 0.5 in
  (* b1 += var_covar_mat * (y_train - y_pred + diagmat(H) % (correction - y_pred)); *)
  r <- sub y_train y_pred ;;
  c <- sub correction y_pred ;;
  hc <- schur (diagmat H_) c ;;
  s <- add r hc ;;
  step <- mul var_covar_mat s ;;
  add b0 step.

(** One pass through the body of the [for] loop: the new iterate, the
    covariance matrix it was computed with, and whether the loop breaks. *)
Definition iteration (firth : bool) (x_design y_train b0 : dmat)
  : result (dmat * dmat * bool) :=
  y_pred <- predictLogitProbs x_design b0 ;;
  var_covar_mat <- iteration_covariance x_design y_pred ;;
  b1 <- (if firth
         then firth_update x_design y_train y_pred var_covar_mat b0
         else plain_update x_design y_train y_pred var_covar_mat b0) ;;
  new <- elem1 b1 1 ;;
  old <- elem1 b0 1 ;;
  Ok (b1, var_covar_mat, PrimFloat.ltb (PrimFloat.abs (new - old)) convergence_limit).

(** The [for] loop with [n] passes left.  [parameter_iterations] is kept
    as its last element [back] and its [size].  The last component of the
    result tells how the loop was left: [true] by [break], [false] by its
    condition. *)
Fixpoint iterate (firth : bool) (x_design y_train : dmat) (n : nat)
         (size : nat) (back var_covar_mat : dmat)
  : result (nat * dmat * dmat * bool) :=
  match n with
  | O => Ok (size, back, var_covar_mat, false)
  | S n' =>
      '(b1, V, stop) <- iteration firth x_design y_train back ;;
      if stop then Ok (S size, b1, V, true)
      else iterate firth x_design y_train n' (S size) b1 V
  end.

(** The [else] branch after the loop: the results are written. *)
Definition report (back var_covar_mat : dmat) (k : Kmer) : outcome :=
  match elem1 back 1 with
  | Throw e => (Throw e, k)
  | Ok b =>
      let k1 := set_beta b k in
      match elem var_covar_mat 1 1 with
      | Throw e => (Throw e, k1)
      | Ok v =>
          let se := c_pow v 0.5 in
          let k2 := set_standard_error se k1 in
          let W := PrimFloat.abs b / se in
          (Ok tt, set_p_val (normalPval W) k2)
      end
  end.

(** The three results as [report] and the gradient stage write them, from
    the coefficient [b] and the variance [v]. *)
Definition with_statistics (b v : float) (k : Kmer) : Kmer :=
  let se := c_pow v 0.5 in
  set_p_val (2 * (1 - normal_cdf (PrimFloat.abs b / se)))
            (set_standard_error se (set_beta b k)).

(** [newtonRaphson] for one value of [firth]; [escalate] is the call it
    makes when [firth] is false and the size test succeeds. *)
Definition newtonRaphson_stage (firth : bool) (escalate : Kmer -> outcome)
           (k : Kmer) (y_train x_design : dmat) : outcome :=
  match newtonRaphson_starting_point y_train x_design with
  | Throw e => (Throw e, k)
  | Ok starting_point =>
      match iterate firth x_design y_train max_nr_iterations 1
                    starting_point (Mat 0 0 (fun _ _ => 0)) with
      | Throw e => (Throw e, k)
      | Ok (size, back, var_covar_mat, _) =>
          if (size =? max_nr_iterations)%nat then
            if negb firth
            then escalate (add_comment "nr-fail" k)
            else (Ok tt, add_comment "firth-fail" k)
          else report back var_covar_mat k
      end
  end.

Definition newtonRaphson (k : Kmer) (y_train x_design : dmat) (firth : bool) : outcome :=
  if firth
  then newtonRaphson_stage true (fun k' => (Ok tt, k')) k y_train x_design
  else newtonRaphson_stage false
         (fun k' => newtonRaphson_stage true (fun k'' => (Ok tt, k'')) k' y_train x_design)
         k y_train x_design.

(** The [try] block of [doLogit]. *)
Definition gradient_stage (uninit : nat -> nat -> float)
           (x_train y_train x_design starting_point : dmat) (k : Kmer) : outcome :=
  match find_max x_train y_train starting_point with
  | Throw e => (Throw e, k)
  | Ok b_vector =>
      match elem1 b_vector 1 with
      | Throw e => (Throw e, k)
      | Ok b_1 =>
          let k1 := set_beta b_1 k in
          match (V <- varCovarMat uninit x_design b_vector ;; elem V 1 1) with
          | Throw e => (Throw e, k1)
          | Ok v =>
              let se := c_pow v 0.5 in
              let k2 := set_standard_error se k1 in
              let W := PrimFloat.abs b_1 / se in
              (Ok tt, set_p_val (normalPval W) k2)
          end
      end
  end.

Definition doLogit (uninit : nat -> nat -> float)
           (k : Kmer) (y_train x_train : dmat) : outcome :=
  match (x_design <- join_rows (ones (n_rows x_train) 1) x_train ;;
         starting_point <- doLogit_starting_point y_train x_design ;;
         Ok (x_design, starting_point)) with
  | Throw e => (Throw e, k)
  | Ok (x_design, starting_point) =>
      match gradient_stage uninit x_train y_train x_design starting_point k with
      | (Ok tt, k') => (Ok tt, k')
      | (Throw _, k') =>
          newtonRaphson (add_comment "bfgs-fail" k') y_train x_design false
      end
  end.

(** Logistic fit without covariates, and with them. *)
Definition logisticTest (uninit : nat -> nat -> float)
           (k : Kmer) (y_train : dmat) : outcome :=
  doLogit uninit k y_train (get_x k).

Definition logisticTest_mds (uninit : nat -> nat -> float)
           (k : Kmer) (y_train mds : dmat) : outcome :=
  match join_rows (get_x k) mds with
  | Throw e => (Throw e, k)
  | Ok x_train => doLogit uninit k y_train x_train
  end.

End Fitter.
End Logit.

(** ** Reference data and reference externals, for running the model *)

Module Reference.
#[local] Set Warnings "-inexact-float".
Import Arma.
Open Scope float_scope.

(** [exp] by halving the argument ten times, a Taylor polynomial, and ten
    squarings. *)
Definition exp_ref (x : float) : float :=
  let y := x / 1024 in
  let p := fold_right (fun k acc => 1 + y / of_nat k * acc) 1
                      [1; 2; 3; 4; 5; 6; 7; 8; 9; 10; 11; 12]%nat in
  Nat.iter 10 (fun v => v * v) p.

(** [log] by Halley's iteration on [exp_ref], with the values the C library
    gives at zero, at infinity and below zero. *)
Definition log_ref (x : float) : float :=
  if PrimFloat.eqb x 0 then neg_infinity
  else if PrimFloat.eqb x infinity then infinity
  else if PrimFloat.ltb x 0 then nan
  else Nat.iter 40 (fun y => let e := exp_ref y in y + 2 * (x - e) / (x + e)) 0.

(** [pow] through [exp_ref] and [log_ref]; the square root for the exponent
    one half. *)
Definition pow_ref (x y : float) : float :=
  if PrimFloat.eqb y 0.5 then PrimFloat.sqrt x else exp_ref (y * log_ref x).

(** The normal distribution function by the polynomial approximation of
    Abramowitz and Stegun, 26.2.17. *)
Definition normal_cdf_ref (x : float) : float :=
  let a := PrimFloat.abs x in
  let t := 1 / (1 + 0.2316419 * a) in
  let poly := t * (0.319381530 + t * (-0.356563782 + t * (1.781477937
              + t * (-1.821255978 + t * 1.330274429)))) in
  let upper := exp_ref (- (a * a) / 2) / 2.5066282746310002 * poly in
  if PrimFloat.ltb x 0 then upper else 1 - upper.

(** The inverse of a 2 x 2 matrix by the adjugate; other sizes are refused. *)
Definition inv_2x2 (A : dmat) : result dmat :=
  if (n_rows A =? 2)%nat && (n_cols A =? 2)%nat then
    let a := at_ A 0 0 in let b := at_ A 0 1 in
    let c := at_ A 1 0 in let d := at_ A 1 1 in
    let det := a * d - b * c in
    Ok (mat_of_rows 0 [[d / det; - b / det]; [- c / det; a / det]])
  else Throw "inv_covar: not a 2 x 2 matrix".

(** The four corners of the unit square, as 0/1 rows. *)
Definition square_corners : dmat :=
  mat_of_rows 0 [[0; 0]; [0; 1]; [1; 0]; [1; 1]].

(** An eigen-decomposition for matrices that the symmetries of that square
    leave unchanged: the four sign patterns are eigenvectors, the
    eigenvalues are their Rayleigh quotients.  The columns are listed in the
    order that is ascending for the double-centred matrix of
    [square_corners]. *)
Definition sign_patterns : dmat :=
  mat_of_rows 0 [[ 0.5; 0.5;  0.5;  0.5];
                 [-0.5; 0.5;  0.5; -0.5];
                 [-0.5; 0.5; -0.5;  0.5];
                 [ 0.5; 0.5; -0.5; -0.5]].

Definition rayleigh (B : dmat) (j : nat) : float :=
  sum_upto 4 (fun r => at_ sign_patterns r j *
                       sum_upto 4 (fun c => at_ B r c * at_ sign_patterns c j)).

Definition eig_sym_square (B : dmat) : dmat * dmat :=
  (Mat 4 1 (fun j _ => rayleigh B j), sign_patterns).

(** An optimiser that gives up at once. *)
Definition find_max_fails (x_train y_train starting_point : dmat) : result dmat :=
  Throw "find_max: no progress".

(** An optimiser that returns a fixed point. *)
Definition find_max_returns (b : dmat) (x_train y_train starting_point : dmat) : result dmat :=
  Ok b.

Definition reference (finder : dmat -> dmat -> dmat -> result dmat)
           (limit : float) (max_iterations : nat) : Externals := {|
  c_exp := exp_ref;
  c_log := log_ref;
  c_pow := pow_ref;
  eig_sym := eig_sym_square;
  inv_covar := inv_2x2;
  normal_cdf := normal_cdf_ref;
  find_max := finder;
  convergence_limit := limit;
  max_nr_iterations := max_iterations
|}.

(** The externals used to run the fit: no help from the optimiser, a
    convergence threshold of 1e-7 and at most 1000 passes. *)
Definition reference_fit : Externals :=
  reference find_max_fails 0x1.ad7f29abcaf48p-24 1000.

(** The same with at most three passes, and with at most five. *)
Definition reference_three : Externals :=
  reference find_max_fails 0x1.ad7f29abcaf48p-24 3.
Definition reference_five : Externals :=
  reference find_max_fails 0x1.ad7f29abcaf48p-24 5.

(** Six samples; the feature equals the phenotype in [separated], and is
    mixed in [mixed]. *)
Definition phenotype : dmat := colvec [0; 0; 0; 1; 1; 1].
Definition separated : dmat := colvec [0; 0; 0; 1; 1; 1].
Definition mixed : dmat := colvec [0; 1; 0; 1; 1; 0].

(** Responses that are all 0, and all 1. *)
Definition all_absent : dmat := colvec [0; 0; 0; 0].
Definition all_present : dmat := colvec [1; 1; 1; 1].

(** The design matrix of [mixed]: a column of ones, then the feature. *)
Definition mixed_design : dmat :=
  mat_of_rows 0 [[1; 0]; [1; 1]; [1; 0]; [1; 1]; [1; 1]; [1; 0]].

Definition fresh (x : dmat) : Logit.Kmer := Logit.MkKmer x None None None [].

(** The two starting points for [phenotype] and [mixed_design], and the
    plain Newton-Raphson loop run on them for three passes. *)
Definition mixed_gradient_start : dmat :=
  Eval vm_compute in
    match @Logit.doLogit_starting_point reference_three phenotype mixed_design with
    | Ok sp => sp
    | Throw _ => Mat 0 0 (fun _ _ => 0)
    end.

Definition mixed_newton_start : dmat :=
  Eval vm_compute in
    match @Logit.newtonRaphson_starting_point reference_three phenotype mixed_design with
    | Ok sp => sp
    | Throw _ => Mat 0 0 (fun _ _ => 0)
    end.

Definition mixed_three_passes : nat * dmat * dmat * bool :=
  Eval vm_compute in
    match @Logit.iterate reference_three false mixed_design phenotype 3 1
            mixed_newton_start (Mat 0 0 (fun _ _ => 0)) with
    | Ok run => run
    | Throw _ => (0%nat, Mat 0 0 (fun _ _ => 0), Mat 0 0 (fun _ _ => 0), false)
    end.

(** The distances between the rows of [square_corners] and their
    double-centred matrix. *)
Definition corners_dist : dmat :=
  mat_of_rows 0 [[0; 1; 1; 2]; [1; 0; 2; 1]; [1; 2; 0; 1]; [2; 1; 1; 0]].

Definition corners_B : dmat :=
  Eval vm_compute in
    match MDS.double_centered 4 (square corners_dist) with
    | Ok B => B
    | Throw _ => Mat 0 0 (fun _ _ => 0)
    end.

(** The plain Newton-Raphson loop on the same data with at most 1000
    passes: it stops by [break] on its fourth pass. *)
Definition mixed_converged : nat * dmat * dmat * bool :=
  Eval vm_compute in
    match @Logit.iterate reference_fit false mixed_design phenotype 1000 1
            mixed_newton_start (Mat 0 0 (fun _ _ => 0)) with
    | Ok run => run
    | Throw _ => (0%nat, Mat 0 0 (fun _ _ => 0), Mat 0 0 (fun _ _ => 0), false)
    end.

(** The iterate that loop ends in. *)
Definition mixed_fitted : dmat := snd (fst (fst mixed_converged)).

(** Externals whose optimiser ends in that iterate. *)
Definition reference_gradient : Externals :=
  reference (find_max_returns mixed_fitted) 0x1.ad7f29abcaf48p-24 1000.

End Reference.

(** ** Vocabulary for the further properties *)

Module Vocabulary.
Import Logit.

(** All three results of the [Kmer] are set. *)
Definition complete (k : Kmer) : Prop :=
  exists b se p, beta k = Some b /\ standard_error k = Some se /\ p_val k = Some p.

(** The standard error and the p-value of [k'] are those of [k]. *)
Definition same_statistics (k k' : Kmer) : Prop :=
  standard_error k' = standard_error k /\ p_val k' = p_val k.

(** The tag trails a call of [doLogit] can add, in the order of the
    cascade. *)
Definition tag_trails : list (list string) :=
  [ [];
    ["bfgs-fail"%string];
    ["bfgs-fail"%string; "nr-fail"%string];
    ["bfgs-fail"%string; "nr-fail"%string; "firth-fail"%string] ].

End Vocabulary.

(** ** More reference data *)

Module ReferenceMore.
Import Arma Reference.
Open Scope float_scope.

(** No sample at all, and a response that is too short for six samples. *)
Definition no_response : dmat := colvec [].
Definition short_response : dmat := colvec [0; 1].

(** A design matrix that holds the intercept column only. *)
Definition narrow_design : dmat :=
  mat_of_rows 0 [[1]; [1]; [1]; [1]; [1]; [1]].

(** A feature with one covariate beside it; the design matrix then has
    three columns, which [inv_2x2] refuses. *)
Definition two_features : dmat :=
  mat_of_rows 0 [[0; 1]; [1; 0]; [0; 0]; [1; 1]; [1; 0]; [0; 1]].

Definition two_features_design : dmat :=
  mat_of_rows 0 [[1; 0; 1]; [1; 1; 0]; [1; 0; 0]; [1; 1; 1]; [1; 1; 0]; [1; 0; 1]].

Definition reference_wide : Externals :=
  reference (find_max_returns (colvec [0; 0.5; 0.25])) 0x1.ad7f29abcaf48p-24 1000.

Definition two_features_start : dmat :=
  Eval vm_compute in
    match @Logit.doLogit_starting_point reference_wide phenotype two_features_design with
    | Ok sp => sp
    | Throw _ => Mat 0 0 (fun _ _ => 0)
    end.

End ReferenceMore.

(** ** Vocabulary for the queue of tasks that run at [get] *)

Module QueueVocabulary.
Import Distance.



End QueueVocabulary.
(** * Properties *)

(** ** Distance engine *)

Module DistanceFacts.
Import Distance.
Section Facts.
Context {eT : Type} `{ElemType eT}.


Lemma mat_same_refl (A : mat eT) : mat_same A A.
Proof. repeat split. Qed.

Lemma mat_same_trans (A B C : mat eT) : mat_same A B -> mat_same B C -> mat_same A C.
Proof.
  intros (a1 & a2 & a3) (b1 & b2 & b3).
  split; [congruence|split; [congruence|]].
  intros r c. rewrite a3. apply b3.
Qed.

Lemma mat_same_sym (A B : mat eT) : mat_same A B -> mat_same B A.
Proof.
  intros (a1 & a2 & a3). split; [congruence|split; [congruence|]].
  intros; symmetry; apply a3.
Qed.

Lemma set_at_same (A B : mat eT) i j v : mat_same A B -> mat_same (set_at A i j v) (set_at B i j v).
Proof.
  intros (a1 & a2 & a3). split; [assumption|split; [assumption|]].
  intros r c. simpl. rewrite a3. reflexivity.
Qed.

Lemma write_element_same (A B : mat eT) d :
  mat_same A B -> mat_same (write_element A d) (write_element B d).
Proof. intros E. unfold write_element. now do 2 apply set_at_same. Qed.

Lemma drain_same q : forall A B : mat eT,
  mat_same A B -> mat_same (drain (A, q)) (drain (B, q)).
Proof.
  unfold drain; simpl. induction q as [|d q IH]; intros A B E; simpl; [assumption|].
  apply IH. now apply write_element_same.
Qed.


(** A write on the diagonal commutes with the pending writes, which are all
    off the diagonal. *)
Lemma drain_set_diag q : forall (A : mat eT) i v,
  off_diagonal q ->
  mat_same (drain (set_at A i i v, q)) (set_at (drain (A, q)) i i v).
Proof.
  unfold drain; simpl. induction q as [|d q IH]; intros A i v Hq; simpl.
  - apply mat_same_refl.
  - inversion Hq as [|? ? Hd Hq']; subst.
    eapply mat_same_trans; [|apply IH; assumption].
    apply (drain_same q).
    split; [reflexivity|split; [reflexivity|]].
    intros r c. unfold write_element; simpl.
    destruct (Nat.eqb_spec r (el_col d)), (Nat.eqb_spec c (el_row d)),
      (Nat.eqb_spec r (el_row d)), (Nat.eqb_spec c (el_col d)),
      (Nat.eqb_spec r i), (Nat.eqb_spec c i); simpl; try reflexivity; congruence.
Qed.

Lemma drain_app (A : mat eT) q d : drain (A, q ++ [d]) = write_element (drain (A, q)) d.
Proof. unfold drain; simpl. now rewrite fold_left_app. Qed.

Lemma inner_body_sync_write (inMat : mat eT) i j D :
  i <> j ->
  mat_same (inner_body_sync inMat i (row inMat i) D j)
           (write_element D (threadDistance i j (row inMat i) (row inMat j))).
Proof.
  intros Hij. unfold inner_body_sync.
  destruct (Nat.eqb_spec i j); [contradiction|].
  split; [reflexivity|split; [reflexivity|]].
  intros r c. unfold write_element; simpl.
  now rewrite !Nat.eqb_refl.
Qed.


Lemma inner_body_related (inMat : mat eT) threads i j st D :
  1 <= threads -> related threads st D ->
  exists st', inner_body inMat threads i (row inMat i) st j = Some st' /\
              related threads st' (inner_body_sync inMat i (row inMat i) D j).
Proof.
  intros Ht (Hq & Hl & Hs). destruct st as [dist q]; simpl in *.
  unfold inner_body.
  destruct (Nat.eqb_spec i j) as [->|Hij].
  - eexists; split; [reflexivity|].
    unfold related; simpl. split; [assumption|split; [assumption|]].
    unfold inner_body_sync. rewrite Nat.eqb_refl.
    eapply mat_same_trans; [apply drain_set_diag; assumption|].
    now apply set_at_same.
  - assert (Hw : forall A, mat_same A D ->
              mat_same (write_element A (threadDistance i j (row inMat i) (row inMat j)))
                       (inner_body_sync inMat i (row inMat i) D j)).
    { intros A HA. eapply mat_same_trans; [apply write_element_same, HA|].
      apply mat_same_sym, inner_body_sync_write. assumption. }
    destruct (Nat.eqb_spec (length q) threads) as [Hfull|Hnf].
    + destruct q as [|d q']; [simpl in Hfull; lia|].
      eexists; split; [reflexivity|]. unfold related; simpl.
      inversion Hq; subst. split; [|split].
      * apply Forall_app; split; [assumption|]. constructor; [|constructor]. simpl. assumption.
      * rewrite length_app; simpl in *. lia.
      * rewrite drain_app. apply Hw. exact Hs.
    + eexists; split; [reflexivity|]. unfold related; simpl. split; [|split].
      * apply Forall_app; split; [assumption|]. constructor; [|constructor]. simpl. assumption.
      * rewrite length_app; simpl. lia.
      * rewrite drain_app. apply Hw. exact Hs.
Qed.

Lemma inner_loop_related (inMat : mat eT) threads i js : forall st D,
  1 <= threads -> related threads st D ->
  exists st', inner_loop inMat threads i (row inMat i) js st = Some st' /\
              related threads st'
                (fold_left (inner_body_sync inMat i (row inMat i)) js D).
Proof.
  induction js as [|j js IH]; intros st D Ht Hr; simpl.
  - exists st. split; [reflexivity|assumption].
  - destruct (inner_body_related inMat i j Ht Hr) as (st1 & E1 & R1).
    rewrite E1. apply IH; assumption.
Qed.

Lemma outer_loop_related (inMat : mat eT) threads matSize is_ : forall st D,
  1 <= threads -> related threads st D ->
  exists st', outer_loop inMat threads matSize is_ st = Some st' /\
              related threads st'
                (fold_left (outer_body_sync inMat matSize) is_ D).
Proof.
  induction is_ as [|i is_ IH]; intros st D Ht Hr; simpl.
  - exists st. split; [reflexivity|assumption].
  - destruct (inner_loop_related inMat i (seq i (matSize - i)) Ht Hr)
      as (st1 & E1 & R1).
    rewrite E1. apply IH; assumption.
Qed.

(** With at least one worker the threaded build returns, and what it
    returns is the matrix of the synchronous build. *)
Lemma threaded_is_sync (uninit : nat -> nat -> eT) (inMat : mat eT) threads :
  1 <= threads ->
  exists d, dissimiliarityMatrix uninit inMat threads = Some d /\
            mat_same d (dissimiliarityMatrix_sync uninit inMat).
Proof.
  intros Ht. unfold dissimiliarityMatrix, dissimiliarityMatrix_sync.
  set (D0 := Mat (n_rows inMat) (n_rows inMat) uninit).
  assert (R0 : related threads (D0, []) D0).
  { split; [constructor|split; [simpl; lia|apply mat_same_refl]]. }
  destruct (outer_loop_related inMat (n_rows inMat) (seq 0 (n_rows inMat)) Ht R0)
    as (st & E & (_ & _ & S)).
  rewrite E. eexists; split; [reflexivity|exact S].
Qed.

(** *** The synchronous build, element by element *)


Lemma inner_body_sync_keeps (inMat : mat eT) i j D r c :
  i <= j -> settled inMat D r c ->
  settled inMat (inner_body_sync inMat i (row inMat i) D j) r c.
Proof.
  unfold settled, inner_body_sync, pair_distance. intros Hij Hs.
  destruct (Nat.eqb_spec i j) as [->|Hne]; simpl.
  - destruct (Nat.eqb_spec r j), (Nat.eqb_spec c j); simpl; try assumption.
    subst. now rewrite Nat.eqb_refl.
  - rewrite !Nat.eqb_refl. simpl.
    destruct (Nat.eqb_spec r j), (Nat.eqb_spec c i), (Nat.eqb_spec r i),
      (Nat.eqb_spec c j); simpl; subst; try assumption; try congruence.
    + destruct (Nat.eqb_spec j i); [congruence|].
      now rewrite Nat.min_r, Nat.max_l by lia.
    + destruct (Nat.eqb_spec i j); [congruence|].
      now rewrite Nat.min_l, Nat.max_r by lia.
Qed.

Lemma inner_body_sync_sets (inMat : mat eT) i j D :
  i <= j ->
  settled inMat (inner_body_sync inMat i (row inMat i) D j) i j /\
  settled inMat (inner_body_sync inMat i (row inMat i) D j) j i.
Proof.
  unfold settled, inner_body_sync, pair_distance. intros Hij.
  destruct (Nat.eqb_spec i j) as [->|Hne]; simpl.
  - rewrite !Nat.eqb_refl. simpl. split; reflexivity.
  - rewrite !Nat.eqb_refl. simpl.
    destruct (Nat.eqb_spec j i); [congruence|].
    destruct (Nat.eqb_spec i j); [congruence|]. simpl.
    rewrite Nat.min_l, Nat.max_r, Nat.min_r, Nat.max_l by lia.
    split; reflexivity.
Qed.

Lemma inner_sync_keeps (inMat : mat eT) i js r c : forall D,
  Forall (fun j => i <= j) js -> settled inMat D r c ->
  settled inMat (fold_left (inner_body_sync inMat i (row inMat i)) js D) r c.
Proof.
  induction js as [|j js IH]; intros D Hjs Hs; simpl; [assumption|].
  inversion Hjs; subst. apply IH; [assumption|].
  now apply inner_body_sync_keeps.
Qed.

Lemma inner_sync_sets (inMat : mat eT) i js j : forall D,
  Forall (fun j => i <= j) js -> In j js ->
  let D' := fold_left (inner_body_sync inMat i (row inMat i)) js D in
  settled inMat D' i j /\ settled inMat D' j i.
Proof.
  induction js as [|k js IH]; intros D Hjs Hin; simpl in *; [contradiction|].
  inversion Hjs as [|? ? Hk Hjs']; subst. destruct Hin as [->|Hin].
  - destruct (@inner_body_sync_sets inMat i j D Hk) as [S1 S2].
    split; apply inner_sync_keeps; assumption.
  - apply IH; assumption.
Qed.

Lemma seq_from_le i n : Forall (fun j => i <= j) (seq i n).
Proof. apply Forall_forall. intros j Hj. apply in_seq in Hj. lia. Qed.

Lemma outer_sync_keeps (inMat : mat eT) n is_ r c : forall D,
  settled inMat D r c ->
  settled inMat (fold_left (outer_body_sync inMat n) is_ D) r c.
Proof.
  induction is_ as [|i is_ IH]; intros D Hs; simpl; [assumption|].
  apply IH. unfold outer_body_sync. apply inner_sync_keeps; [apply seq_from_le|assumption].
Qed.

Lemma outer_sync_sets (inMat : mat eT) n is_ i j : forall D,
  In i is_ -> i <= j < n ->
  let D' := fold_left (outer_body_sync inMat n) is_ D in
  settled inMat D' i j /\ settled inMat D' j i.
Proof.
  induction is_ as [|k is_ IH]; intros D Hin Hij; simpl in *; [contradiction|].
  destruct Hin as [->|Hin].
  - assert (Hj : In j (seq i (n - i))) by (apply in_seq; lia).
    destruct (@inner_sync_sets inMat i (seq i (n - i)) j D (seq_from_le i (n - i)) Hj)
      as [S1 S2].
    split; apply outer_sync_keeps; assumption.
  - apply IH; assumption.
Qed.

Lemma inner_sync_dims (inMat : mat eT) i js : forall D,
  let D' := fold_left (inner_body_sync inMat i (row inMat i)) js D in
  n_rows D' = n_rows D /\ n_cols D' = n_cols D.
Proof.
  induction js as [|j js IH]; intros D; simpl; [split; reflexivity|].
  destruct (IH (inner_body_sync inMat i (row inMat i) D j)) as [E1 E2].
  simpl in E1, E2. rewrite E1, E2. unfold inner_body_sync.
  destruct (i =? j); split; reflexivity.
Qed.

Lemma outer_sync_dims (inMat : mat eT) n is_ : forall D,
  let D' := fold_left (outer_body_sync inMat n) is_ D in
  n_rows D' = n_rows D /\ n_cols D' = n_cols D.
Proof.
  induction is_ as [|i is_ IH]; intros D; simpl; [split; reflexivity|].
  destruct (IH (outer_body_sync inMat n D i)) as [E1 E2].
  simpl in E1, E2. rewrite E1, E2. apply inner_sync_dims.
Qed.

Lemma sync_elements (uninit : nat -> nat -> eT) (inMat : mat eT) :
  let D := dissimiliarityMatrix_sync uninit inMat in
  n_rows D = n_rows inMat /\ n_cols D = n_rows inMat /\
  forall r c, r < n_rows inMat -> c < n_rows inMat ->
              at_ D r c = pair_distance inMat r c.
Proof.
  unfold dissimiliarityMatrix_sync. simpl.
  set (n := n_rows inMat). set (D0 := Mat n n uninit).
  destruct (@outer_sync_dims inMat n (seq 0 n) D0) as [E1 E2].
  split; [exact E1|split; [exact E2|]].
  intros r c Hr Hc.
  destruct (Nat.le_ge_cases r c) as [Hle|Hge].
  - apply (@outer_sync_sets inMat n (seq 0 n) r c D0); [apply in_seq|]; lia.
  - apply (@outer_sync_sets inMat n (seq 0 n) c r D0); [apply in_seq|]; lia.
Qed.

End Facts.
End DistanceFacts.

Module DistanceProperties.
Import Distance DistanceFacts.






Lemma sample_matrix_binary : binary sample_matrix.
Proof.
  intros i j Hi Hj. simpl in Hi, Hj.
  destruct i as [|[|[|i]]]; [| | |lia];
    (destruct j as [|[|[|[|j]]]]; [| | | |lia]); simpl; auto.
Qed.


(** For any element type: with at least one worker the function returns a
    square matrix over the samples that is zero on the diagonal and holds,
    at [(r, c)] and at [(c, r)], the distance computed for the pair in the
    upper triangle. *)
Lemma dissimiliarityMatrix_elements {eT : Type} `{ElemType eT}
    (uninit : nat -> nat -> eT) (inMat : mat eT) (threads : nat) :
  1 <= threads ->
  exists dist,
    dissimiliarityMatrix uninit inMat threads = Some dist /\
    n_rows dist = n_rows inMat /\ n_cols dist = n_rows inMat /\
    forall r c, r < n_rows inMat -> c < n_rows inMat ->
      at_ dist r c = pair_distance inMat r c /\ at_ dist r c = at_ dist c r.
Proof.
  intros Ht.
  destruct (threaded_is_sync uninit inMat Ht) as (d & E & (S1 & S2 & S3)).
  destruct (sync_elements uninit inMat) as (N1 & N2 & N3).
  exists d. split; [exact E|]. split; [congruence|]. split; [congruence|].
  intros r c Hr Hc. rewrite !S3, !N3 by assumption. split; [reflexivity|].
  unfold pair_distance. rewrite (Nat.eqb_sym c r), (Nat.min_comm c r), (Nat.max_comm c r).
  reflexivity.
Qed.



(** C3.  The tasks hold references to the vectors of the loops.  On the
    sample matrix with one worker and every task run at [get], the task of
    the pair (0,2) reads rows 1 and 2 and the task of the pair (1,2) reads
    row 2 twice: the matrix returned is symmetric and zero on its diagonal,
    but its elements (0,2) and (1,2) are not the numbers of positions at
    which those rows differ. *)
Theorem late_tasks_read_other_rows :
  binary sample_matrix /\
  option_map entries (dissimiliarityMatrix_late (fun _ _ => 7%Z) sample_matrix 1)
  = Some [[0; 2; 4]; [2; 0; 0]; [4; 0; 0]]%Z /\
  map (fun rc => Z.of_nat (differing (row sample_matrix (fst rc))
                                     (row sample_matrix (snd rc))))
      [(0, 1); (0, 2); (1, 2)]
  = [2; 2; 4]%Z /\
  option_map entries (dissimiliarityMatrix (fun _ _ => 7%Z) sample_matrix 1)
  = Some [[0; 2; 2]; [2; 0; 4]; [2; 4; 0]]%Z.
Proof.
  split; [exact sample_matrix_binary|]. vm_compute. repeat split.
Qed.

(** C4.  With every task run at [get], the matrix returned depends on the
    number of workers, and for no number of workers up to the number of
    pairs is it the matrix of the synchronous build. *)
Theorem late_result_depends_on_workers :
  let late threads :=
    option_map entries
      (dissimiliarityMatrix_late (fun _ _ => nan) sample_matrix_double threads) in
  late 1 = Some [[0; 2; 4]; [2; 0; 0]; [4; 0; 0]]%float /\
  late 2 = Some [[0; 4; 0]; [4; 0; 0]; [0; 0; 0]]%float /\
  late 3 = Some [[0; 0; 0]; [0; 0; 0]; [0; 0; 0]]%float /\
  entries (dissimiliarityMatrix_sync (fun _ _ => nan) sample_matrix_double)
  = [[0; 2; 2]; [2; 0; 4]; [2; 4; 0]]%float.
Proof. vm_compute. repeat split. Qed.

End DistanceProperties.

(** ** Dense storage *)

Module ArmaFacts.
Import Arma.
Local Open Scope nat_scope.

Lemma at_tabulate r c f i j :
  i < r -> j < c -> at_ (tabulate r c f) i j = f i j.
Proof.
  intros Hi Hj. unfold tabulate. simpl.
  rewrite (nth_indep _ [] (map (f 0) (seq 0 c)))
    by (rewrite length_map, length_seq; exact Hi).
  rewrite (map_nth (fun i => map (f i) (seq 0 c)) (seq 0 r) 0 i), seq_nth by exact Hi.
  rewrite (nth_indep _ 0%float (f (0 + i) 0 ))
    by (rewrite length_map, length_seq; exact Hj).
  rewrite (map_nth (f (0 + i)) (seq 0 c) 0 j), seq_nth by exact Hj.
  reflexivity.
Qed.

Lemma n_rows_t (A : dmat) : n_rows (t A) = n_cols A.
Proof. reflexivity. Qed.

Lemma n_cols_t (A : dmat) : n_cols (t A) = n_rows A.
Proof. reflexivity. Qed.

Lemma n_rows_tabulate r c f : n_rows (tabulate r c f) = r.
Proof. reflexivity. Qed.

Lemma n_cols_tabulate r c f : n_cols (tabulate r c f) = c.
Proof. reflexivity. Qed.

(** In a column vector the k-th element is the element of row k. *)
Lemma lin_column (v : dmat) k :
  n_cols v = 1 -> k < n_rows v -> lin v k = at_ v k 0.
Proof.
  intros Hc Hk. unfold lin. destruct (n_rows v) as [|n] eqn:E; [lia|].
  rewrite Nat.mod_small, Nat.div_small by lia. reflexivity.
Qed.

Lemma n_elem_column (v : dmat) : n_cols v = 1 -> n_elem v = n_rows v.
Proof. unfold n_elem. intros ->. lia. Qed.

Lemma map_seq_ext {A} (f g : nat -> A) n : forall s,
  (forall k, s <= k < s + n -> f k = g k) -> map f (seq s n) = map g (seq s n).
Proof.
  induction n as [|n IH]; intros s Hfg; simpl; [reflexivity|].
  rewrite Hfg by lia. f_equal. apply IH. intros k Hk. apply Hfg. lia.
Qed.

Lemma map_seq_const {A} (a : A) n s : map (fun _ => a) (seq s n) = repeat a n.
Proof. revert s. induction n as [|n IH]; intros s; simpl; [|rewrite IH]; reflexivity. Qed.

Global Opaque tabulate.

End ArmaFacts.

(** ** Starting points of the fit *)

Module StartingPoint.
Import Arma ArmaFacts Logit.
Local Open Scope nat_scope.

Section Facts.
Context `{Externals}.

Lemma start_intercept_mean (y_train : dmat) (m : float) :
  mean y_train = Ok m ->
  start_intercept y_train = Ok (c_log (m / (1 - m))%float).
Proof. intros E. unfold start_intercept. rewrite E. reflexivity. Qed.

Lemma elems_head_tail (f : nat -> float) (a d : float) (c : nat) :
  f 0 = a -> (forall k, 1 <= k < S c -> f k = d) ->
  map f (seq 0 (S c)) = a :: repeat d c.
Proof.
  intros H0 Hk. simpl. rewrite H0. f_equal.
  rewrite (map_seq_ext f (fun _ => d)) by (intros; apply Hk; lia).
  apply map_seq_const.
Qed.

Lemma doLogit_starting_point_elems (y_train x_design : dmat) (m : float) (c : nat) :
  mean y_train = Ok m -> n_cols x_design = S c ->
  exists sp, doLogit_starting_point y_train x_design = Ok sp /\
             elems sp = c_log (m / (1 - m))%float :: repeat 1%float c.
Proof.
  intros Em Ec. unfold doLogit_starting_point.
  rewrite (start_intercept_mean _ Em). simpl. eexists; split; [reflexivity|].
  unfold elems, n_elem. cbn [n_rows n_cols]. rewrite Ec, Nat.mul_1_r.
  apply elems_head_tail.
  - rewrite lin_column by (cbn [n_rows n_cols]; lia). reflexivity.
  - intros k Hk. rewrite lin_column by (cbn [n_rows n_cols]; lia).
    cbn [at_]. destruct (Nat.eqb_spec k 0); [lia|reflexivity].
Qed.

Lemma newtonRaphson_starting_point_elems (y_train x_design : dmat) (m : float) (c : nat) :
  mean y_train = Ok m -> n_cols x_design = S c ->
  exists sp, newtonRaphson_starting_point y_train x_design = Ok sp /\
             elems sp = c_log (m / (1 - m))%float :: repeat 0%float c.
Proof.
  intros Em Ec. unfold newtonRaphson_starting_point.
  rewrite (start_intercept_mean _ Em). cbn [bind].
  unfold zeros, n_elem. rewrite n_rows_tabulate, n_cols_tabulate, Ec.
  cbn [Nat.mul Nat.add Nat.ltb Nat.leb].
  eexists; split; [reflexivity|].
  unfold elems, n_elem. cbn [n_rows n_cols]. rewrite Nat.mul_1_r.
  apply elems_head_tail.
  - rewrite lin_column by (cbn [n_rows n_cols]; lia). reflexivity.
  - intros k Hk. rewrite lin_column by (cbn [n_rows n_cols]; lia).
    cbn [at_]. destruct (Nat.eqb_spec k 0); [lia|]. cbn [andb].
    apply at_tabulate; lia.
Qed.

Lemma design_matrix (x_train : dmat) :
  exists x_design,
    join_rows (ones (n_rows x_train) 1) x_train = Ok x_design /\
    n_rows x_design = n_rows x_train /\
    n_cols x_design = S (n_cols x_train).
Proof.
  unfold join_rows, ones. rewrite n_rows_tabulate, n_cols_tabulate, Nat.eqb_refl.
  eexists; split; [reflexivity|]. split; reflexivity.
Qed.

End Facts.

(** C8.  Whenever the mean [m] of the response is defined, in particular
    when it lies strictly between 0 and 1, the gradient stage is started
    from the vector whose element 0 is ln(m / (1 - m)) and whose other
    elements are 1, and the Newton-Raphson stage and the Firth stage are
    started from the vector with the same element 0 and 0 elsewhere. *)
Theorem starting_points `{Externals}
    (uninit : nat -> nat -> float) (k : Kmer) (y_train x_train : dmat) (m : float) :
  mean y_train = Ok m ->
  exists x_design sp_gradient sp_newton,
    join_rows (ones (n_rows x_train) 1) x_train = Ok x_design /\
    doLogit_starting_point y_train x_design = Ok sp_gradient /\
    elems sp_gradient = c_log (m / (1 - m))%float :: repeat 1%float (n_cols x_train) /\
    newtonRaphson_starting_point y_train x_design = Ok sp_newton /\
    elems sp_newton = c_log (m / (1 - m))%float :: repeat 0%float (n_cols x_train) /\
    doLogit uninit k y_train x_train =
      match gradient_stage uninit x_train y_train x_design sp_gradient k with
      | (Ok tt, k') => (Ok tt, k')
      | (Throw _, k') => newtonRaphson (add_comment "bfgs-fail" k') y_train x_design false
      end /\
    forall firth escalate k',
      newtonRaphson_stage firth escalate k' y_train x_design =
        match iterate firth x_design y_train max_nr_iterations 1 sp_newton
                      (Mat 0 0 (fun _ _ => 0%float)) with
        | Throw e => (Throw e, k')
        | Ok (size, back, var_covar_mat, _) =>
            if size =? max_nr_iterations then
              if negb firth then escalate (add_comment "nr-fail" k')
              else (Ok tt, add_comment "firth-fail" k')
            else report back var_covar_mat k'
        end.
Proof.
  intros Em.
  destruct (design_matrix x_train) as (xd & Ej & _ & Ec).
  destruct (@doLogit_starting_point_elems _ y_train xd m _ Em Ec) as (sg & Eg & Lg).
  destruct (@newtonRaphson_starting_point_elems _ y_train xd m _ Em Ec) as (sn & En & Ln).
  exists xd, sg, sn. repeat (split; [assumption|]). split.
  - unfold doLogit. rewrite Ej. cbn [bind]. rewrite Eg. reflexivity.
  - intros firth escalate k'. unfold newtonRaphson_stage. rewrite En. reflexivity.
Qed.

Lemma starting_points_witness :
  mean Reference.phenotype = Ok 0.5%float /\
  exists x_design sp_gradient sp_newton,
    join_rows (ones (n_rows Reference.mixed) 1) Reference.mixed = Ok x_design /\
    @doLogit_starting_point Reference.reference_fit Reference.phenotype x_design
      = Ok sp_gradient /\
    elems sp_gradient
      = @c_log Reference.reference_fit (0.5 / (1 - 0.5))%float
        :: repeat 1%float (n_cols Reference.mixed) /\
    @newtonRaphson_starting_point Reference.reference_fit Reference.phenotype x_design
      = Ok sp_newton /\
    elems sp_newton
      = @c_log Reference.reference_fit (0.5 / (1 - 0.5))%float
        :: repeat 0%float (n_cols Reference.mixed) /\
    @doLogit Reference.reference_fit (fun _ _ => nan)
             (Reference.fresh Reference.mixed) Reference.phenotype Reference.mixed =
      match @gradient_stage Reference.reference_fit (fun _ _ => nan) Reference.mixed
              Reference.phenotype x_design sp_gradient
              (Reference.fresh Reference.mixed) with
      | (Ok tt, k') => (Ok tt, k')
      | (Throw _, k') =>
          @newtonRaphson Reference.reference_fit (add_comment "bfgs-fail" k')
            Reference.phenotype x_design false
      end /\
    forall firth escalate k',
      @newtonRaphson_stage Reference.reference_fit firth escalate k'
          Reference.phenotype x_design =
        match @iterate Reference.reference_fit firth x_design Reference.phenotype
                (@max_nr_iterations Reference.reference_fit) 1 sp_newton
                (Mat 0 0 (fun _ _ => 0%float)) with
        | Throw e => (Throw e, k')
        | Ok (size, back, var_covar_mat, _) =>
            if size =? @max_nr_iterations Reference.reference_fit then
              if negb firth then escalate (add_comment "nr-fail" k')
              else (Ok tt, add_comment "firth-fail" k')
            else @report Reference.reference_fit back var_covar_mat k'
        end.
Proof.
  split; [vm_compute; reflexivity|].
  apply (@starting_points Reference.reference_fit (fun _ _ => nan)
           (Reference.fresh Reference.mixed) Reference.phenotype Reference.mixed
           0.5%float).
  vm_compute; reflexivity.
Defined.

(** C10.  When the mean of the response is 0 or 1 and the C library's [log]
    gives minus infinity at 0 and infinity at infinity, the starting
    intercept is not a finite number (minus infinity for mean 0, infinity
    for mean 1), and it is element 0 of the starting point of every stage. *)
Theorem degenerate_response_intercept `{Externals}
    (y_train x_design : dmat) (m : float) (c : nat) :
  c_log 0%float = neg_infinity -> c_log infinity = infinity ->
  n_cols x_design = S c ->
  mean y_train = Ok m -> m = 0%float \/ m = 1%float ->
  let b0 := if PrimFloat.eqb m 0 then neg_infinity else infinity in
  start_intercept y_train = Ok b0 /\
  PrimFloat.is_finite b0 = false /\
  exists sp_gradient sp_newton,
    doLogit_starting_point y_train x_design = Ok sp_gradient /\
    elems sp_gradient = b0 :: repeat 1%float c /\
    newtonRaphson_starting_point y_train x_design = Ok sp_newton /\
    elems sp_newton = b0 :: repeat 0%float c.
Proof.
  intros L0 Linf Ec Em Hm b0.
  assert (Eb : c_log (m / (1 - m))%float = b0).
  { subst b0. destruct Hm as [-> | ->].
    - change (0 / (1 - 0))%float with 0%float. rewrite L0. reflexivity.
    - change (1 / (1 - 1))%float with infinity. rewrite Linf. reflexivity. }
  split; [rewrite (start_intercept_mean _ Em), Eb; reflexivity|].
  split; [subst b0; destruct Hm as [-> | ->]; reflexivity|].
  destruct (@doLogit_starting_point_elems _ y_train x_design m _ Em Ec) as (sg & Eg & Lg).
  destruct (@newtonRaphson_starting_point_elems _ y_train x_design m _ Em Ec)
    as (sn & En & Ln).
  exists sg, sn. rewrite <- Eb. repeat split; assumption.
Qed.

Lemma degenerate_response_intercept_witness :
  @c_log Reference.reference_fit 0%float = neg_infinity /\
  @c_log Reference.reference_fit infinity = infinity /\
  n_cols (colvec [1; 1]%float) = 1 /\
  mean Reference.all_present = Ok 1%float /\
  (1 = 0 \/ 1 = 1)%float /\
  @start_intercept Reference.reference_fit Reference.all_present = Ok infinity /\
  PrimFloat.is_finite infinity = false.
Proof.
  assert (L0 : @c_log Reference.reference_fit 0%float = neg_infinity) by reflexivity.
  assert (Li : @c_log Reference.reference_fit infinity = infinity) by reflexivity.
  assert (Ec : n_cols (colvec [1; 1]%float) = 1) by reflexivity.
  assert (Em : mean Reference.all_present = Ok 1%float) by (vm_compute; reflexivity).
  assert (Hm : (1 = 0 \/ 1 = 1)%float) by (right; reflexivity).
  destruct (@degenerate_response_intercept Reference.reference_fit
              Reference.all_present (colvec [1; 1]%float) 1%float 0
              L0 Li Ec Em Hm) as (Es & Ef & _).
  split; [exact L0|]. split; [exact Li|]. split; [exact Ec|].
  split; [exact Em|]. split; [exact Hm|]. split; [exact Es|exact Ef].
Defined.

End StartingPoint.

(** ** The Newton-Raphson loop and what follows it *)

Module FitFacts.
Import Arma ArmaFacts Logit.
Local Open Scope nat_scope.

Section Facts.
Context `{Externals}.

(** The size of [parameter_iterations] after the loop: one more per pass;
    all [n] passes when the loop was not left by [break]. *)
Lemma iterate_size firth x_design y_train n : forall size back V size' back' V' broke,
  iterate firth x_design y_train n size back V = Ok (size', back', V', broke) ->
  size <= size' <= size + n /\
  (broke = false -> size' = size + n) /\
  (broke = true -> size < size').
Proof.
  induction n as [|n IH]; intros size back V size' back' V' broke E; simpl in E.
  - injection E as <- <- <- <-. repeat split; (lia || discriminate).
  - destruct (iteration firth x_design y_train back) as [[[b1 V1] stop]|e];
      simpl in E; [|discriminate].
    destruct stop.
    + injection E as <- <- <- <-. repeat split; (lia || discriminate).
    + apply IH in E. destruct E as (E1 & E2 & E3).
      split; [lia|split]; intros Hb;
        [specialize (E2 Hb)|specialize (E3 Hb)]; lia.
Qed.

(** Every pass reads element 1 of the iterate it produced. *)
Lemma iteration_reads firth x_design y_train back b1 V stop :
  iteration firth x_design y_train back = Ok (b1, V, stop) ->
  exists b, elem1 b1 1 = Ok b.
Proof.
  unfold iteration. intros Ei.
  destruct (predictLogitProbs x_design back) as [y_pred|]; simpl in Ei; [|discriminate].
  destruct (iteration_covariance x_design y_pred); simpl in Ei; [|discriminate].
  destruct (if firth then _ else _) as [b1'|]; simpl in Ei; [|discriminate].
  destruct (elem1 b1' 1) as [new|] eqn:En; simpl in Ei; [|discriminate].
  destruct (elem1 back 1); simpl in Ei; [|discriminate].
  inversion Ei; subst. eauto.
Qed.

Lemma iterate_back_or_same firth x_design y_train n :
  forall size back V size' back' V' broke,
  iterate firth x_design y_train n size back V = Ok (size', back', V', broke) ->
  (size' = size /\ back' = back) \/ exists b, elem1 back' 1 = Ok b.
Proof.
  induction n as [|n IH]; intros size back V size' back' V' broke E; simpl in E.
  - inversion E; subst. left. split; reflexivity.
  - destruct (iteration firth x_design y_train back) as [[[b1 V1] stop]|e] eqn:Ei;
      simpl in E; [|discriminate].
    apply iteration_reads in Ei. right. destruct stop.
    + inversion E; subst. exact Ei.
    + destruct (IH _ _ _ _ _ _ _ E) as [[_ ->]|Hb]; assumption.
Qed.

(** After at least one pass, element 1 of the last iterate exists. *)
Lemma iterate_back firth x_design y_train n size back V size' back' V' broke :
  iterate firth x_design y_train n size back V = Ok (size', back', V', broke) ->
  size < size' -> exists b, elem1 back' 1 = Ok b.
Proof.
  intros E Hlt. destruct (iterate_back_or_same _ _ _ _ _ _ _ E) as [[-> _]|Hb];
    [lia|exact Hb].
Qed.

Lemma report_comments back V k : comments (snd (report back V k)) = comments k.
Proof.
  unfold report. destruct (elem1 back 1); [|reflexivity].
  destruct (elem V 1 1); reflexivity.
Qed.

Lemma report_beta back V k b :
  elem1 back 1 = Ok b -> beta (snd (report back V k)) = Some b.
Proof.
  intros E. unfold report. rewrite E. destruct (elem V 1 1); reflexivity.
Qed.

(** The Firth stage leaves the comments as they were or adds "firth-fail". *)
Lemma firth_stage_comments escalate k y_train x_design :
  exists rest,
    comments (snd (newtonRaphson_stage true escalate k y_train x_design))
    = comments k ++ rest.
Proof.
  unfold newtonRaphson_stage.
  destruct (newtonRaphson_starting_point y_train x_design) as [sp|e];
    [|exists []; simpl; now rewrite app_nil_r].
  destruct (iterate true x_design y_train max_nr_iterations 1 sp _)
    as [[[[size back] V] broke]|e]; [|exists []; simpl; now rewrite app_nil_r].
  destruct (size =? max_nr_iterations); simpl.
  - exists ["firth-fail"%string]. reflexivity.
  - exists []. rewrite report_comments. now rewrite app_nil_r.
Qed.

(** What [newtonRaphson] does after the plain loop, by the way the loop was
    left and the size it reached. *)
Lemma plain_stage_cases k y_train x_design sp size back V broke :
  newtonRaphson_starting_point y_train x_design = Ok sp ->
  iterate false x_design y_train max_nr_iterations 1 sp (Mat 0 0 (fun _ _ => 0%float))
    = Ok (size, back, V, broke) ->
  (broke = false /\ size = S max_nr_iterations /\
   newtonRaphson k y_train x_design false = report back V k)
  \/
  (broke = true /\ size = max_nr_iterations /\
   newtonRaphson k y_train x_design false
   = newtonRaphson (add_comment "nr-fail" k) y_train x_design true)
  \/
  (broke = true /\ size <> max_nr_iterations /\
   newtonRaphson k y_train x_design false = report back V k).
Proof.
  intros Es Ei. pose proof (iterate_size _ _ _ _ _ _ _ Ei) as (Hs & Hf & Ht).
  assert (Heq : newtonRaphson k y_train x_design false =
                if size =? max_nr_iterations
                then newtonRaphson (add_comment "nr-fail" k) y_train x_design true
                else report back V k).
  { unfold newtonRaphson. unfold newtonRaphson_stage at 1. rewrite Es, Ei.
    destruct (size =? max_nr_iterations); reflexivity. }
  rewrite Heq. destruct (Nat.eqb_spec size max_nr_iterations) as [E|E].
  - destruct broke.
    + right. left. repeat split; assumption.
    + specialize (Hf eq_refl). lia.
  - destruct broke.
    + right. right. repeat split; assumption.
    + left. specialize (Hf eq_refl). repeat split; lia.
Qed.

Lemma gradient_stage_comments uninit x_train y_train x_design sp k :
  comments (snd (gradient_stage uninit x_train y_train x_design sp k)) = comments k.
Proof.
  unfold gradient_stage.
  destruct (find_max x_train y_train sp) as [b|]; [|reflexivity].
  destruct (elem1 b 1); [|reflexivity].
  destruct (bind _ _); reflexivity.
Qed.

(** The predicted probabilities have one row per sample and the columns of
    the coefficient vector. *)
Lemma predictLogitProbs_size x b y_pred :
  predictLogitProbs x b = Ok y_pred ->
  n_rows y_pred = n_rows x /\ n_cols y_pred = n_cols b.
Proof.
  unfold predictLogitProbs, mul. destruct (n_cols x =? n_rows b); [|discriminate].
  simpl. intros E. injection E as <-. unfold map_mat.
  rewrite !n_rows_tabulate, !n_cols_tabulate. split; reflexivity.
Qed.

(** The first statement of the Firth branch multiplies two column vectors of
    the same length as matrices: with two samples or more the sizes do not
    conform. *)
Lemma firth_update_throws x_design y_train y_pred V b0 :
  n_cols y_pred = 1 -> 2 <= n_rows y_pred ->
  firth_update x_design y_train y_pred V b0
  = Throw "matrix multiplication: incompatible matrix dimensions".
Proof.
  intros Hc Hr. unfold firth_update, mul at 1. unfold map_mat.
  rewrite n_rows_tabulate, Hc.
  destruct (Nat.eqb_spec 1 (n_rows y_pred)); [lia|reflexivity].
Qed.

Lemma firth_iteration_throws x_design y_train b0 :
  n_cols b0 = 1 -> 2 <= n_rows x_design ->
  exists e, iteration true x_design y_train b0 = Throw e.
Proof.
  intros Hc Hr. unfold iteration.
  destruct (predictLogitProbs x_design b0) as [y_pred|e] eqn:Ep; [|eexists; reflexivity].
  apply predictLogitProbs_size in Ep. destruct Ep as [E1 E2]. cbn [bind].
  destruct (iteration_covariance x_design y_pred) as [V|e]; [|eexists; reflexivity].
  cbn [bind]. rewrite firth_update_throws by lia. eexists; reflexivity.
Qed.

Lemma newtonRaphson_starting_point_size y_train x_design sp :
  newtonRaphson_starting_point y_train x_design = Ok sp ->
  n_rows sp = n_cols x_design /\ n_cols sp = 1.
Proof.
  unfold newtonRaphson_starting_point.
  destruct (start_intercept y_train); [|discriminate]. cbn [bind].
  destruct (0 <? n_elem _); [|discriminate].
  intros E. injection E as <-. cbn [n_rows n_cols]. unfold zeros.
  rewrite n_rows_tabulate, n_cols_tabulate. split; reflexivity.
Qed.

End Facts.
End FitFacts.

Module FitProperties.
Import Arma ArmaFacts Logit FitFacts.
#[local] Set Warnings "-inexact-float".
Local Open Scope nat_scope.

(** C1.  What the plain Newton-Raphson stage does, by the way its loop was
    left.  When all [max_nr_iterations] passes ran without the change of
    coefficient 1 falling below the threshold, the size of
    [parameter_iterations] is one more than the maximum, the size test
    fails, and the fit is reported as converged: no "nr-fail", coefficient
    written.  The tag is given, and the Firth stage called, exactly when the
    loop was left by [break] with the size equal to the maximum, that is
    when the fit converged on pass [max_nr_iterations - 1]. *)
Theorem newtonRaphson_size_test `{Externals}
    (k : Kmer) (y_train x_design sp : dmat) (size : nat) (back V : dmat) (broke : bool) :
  1 <= max_nr_iterations ->
  newtonRaphson_starting_point y_train x_design = Ok sp ->
  iterate false x_design y_train max_nr_iterations 1 sp (Mat 0 0 (fun _ _ => 0%float))
    = Ok (size, back, V, broke) ->
  let out := newtonRaphson k y_train x_design false in
  (broke = false /\ size = S max_nr_iterations /\
   out = report back V k /\ comments (snd out) = comments k /\
   exists b, beta (snd out) = Some b)
  \/
  (broke = true /\ size = max_nr_iterations /\
   out = newtonRaphson (add_comment "nr-fail" k) y_train x_design true /\
   exists rest, comments (snd out) = comments k ++ "nr-fail"%string :: rest)
  \/
  (broke = true /\ size <> max_nr_iterations /\
   out = report back V k /\ comments (snd out) = comments k).
Proof.
  intros Hmax Es Ei out. subst out.
  destruct (plain_stage_cases k _ _ Es Ei)
    as [(Hb & Hs & Ho)|[(Hb & Hs & Ho)|(Hb & Hs & Ho)]].
  - left. rewrite Ho. repeat (split; [assumption || reflexivity|]).
    split; [apply report_comments|].
    destruct (iterate_back _ _ _ _ _ _ Ei) as (b & Eb); [lia|].
    exists b. now apply report_beta.
  - right; left. rewrite Ho. repeat (split; [assumption || reflexivity|]).
    unfold newtonRaphson.
    destruct (firth_stage_comments (fun k' => (Ok tt, k'))
                (add_comment "nr-fail" k) y_train x_design) as (rest & Er).
    exists rest. rewrite Er. simpl. now rewrite <- app_assoc.
  - right; right. rewrite Ho. repeat (split; [assumption || reflexivity|]).
    apply report_comments.
Qed.

Lemma newtonRaphson_size_test_witness :
  exists sp back V,
    1 <= @max_nr_iterations Reference.reference_three /\
    @newtonRaphson_starting_point Reference.reference_three
      Reference.phenotype Reference.mixed_design = Ok sp /\
    @iterate Reference.reference_three false Reference.mixed_design Reference.phenotype
      (@max_nr_iterations Reference.reference_three) 1 sp (Mat 0 0 (fun _ _ => 0%float))
      = Ok (4, back, V, false) /\
    let k := Reference.fresh Reference.mixed in
    let out := @newtonRaphson Reference.reference_three k
                 Reference.phenotype Reference.mixed_design false in
    (false = false /\ 4 = S (@max_nr_iterations Reference.reference_three) /\
     out = @report Reference.reference_three back V k /\
     comments (snd out) = comments k /\
     exists b, beta (snd out) = Some b)
    \/
    (false = true /\ 4 = @max_nr_iterations Reference.reference_three /\
     out = @newtonRaphson Reference.reference_three (add_comment "nr-fail" k)
             Reference.phenotype Reference.mixed_design true /\
     exists rest, comments (snd out) = comments k ++ "nr-fail"%string :: rest)
    \/
    (false = true /\ 4 <> @max_nr_iterations Reference.reference_three /\
     out = @report Reference.reference_three back V k /\
     comments (snd out) = comments k).
Proof.
  destruct (@newtonRaphson_starting_point Reference.reference_three
              Reference.phenotype Reference.mixed_design) as [sp|e] eqn:Es;
    [|vm_compute in Es; discriminate].
  destruct (@iterate Reference.reference_three false Reference.mixed_design
              Reference.phenotype (@max_nr_iterations Reference.reference_three)
              1 sp (Mat 0 0 (fun _ _ => 0%float)))
    as [[[[size back] V] broke]|e] eqn:Ei.
  - assert (Hrun : size = 4 /\ broke = false).
    { pose proof Es as Es'. vm_compute in Es'. injection Es' as Es'.
      pose proof Ei as Ei'. rewrite <- Es' in Ei'. vm_compute in Ei'.
      injection Ei' as E1 _ _ E4. split; congruence. }
    destruct Hrun as [-> ->].
    exists sp, back, V.
    assert (Hmax : 1 <= @max_nr_iterations Reference.reference_three)
      by (vm_compute; lia).
    split; [exact Hmax|]. split; [reflexivity|]. split; [exact Ei|].
    exact (@newtonRaphson_size_test Reference.reference_three
             (Reference.fresh Reference.mixed) Reference.phenotype
             Reference.mixed_design sp 4 back V false Hmax Es Ei).
  - exfalso. pose proof Es as Es'. vm_compute in Es'. injection Es' as Es'.
    rewrite <- Es' in Ei. vm_compute in Ei. discriminate.
Defined.

(** C2.  The Firth branch as it is written does not apply the penalised
    update: with two samples or more its first statement,
    [diagmat(y_pred * (1 - y_pred))], multiplies two column vectors as
    matrices, so the pass leaves by an exception before any update is made,
    and so does the whole Firth stage, without writing to the [Kmer]. *)
Theorem firth_branch_throws `{Externals}
    (k : Kmer) (y_train x_design b0 : dmat) :
  n_cols b0 = 1 -> 2 <= n_rows x_design -> 1 <= max_nr_iterations ->
  (forall y_pred V,
     predictLogitProbs x_design b0 = Ok y_pred ->
     firth_update x_design y_train y_pred V b0
     = Throw "matrix multiplication: incompatible matrix dimensions") /\
  (exists e, iteration true x_design y_train b0 = Throw e) /\
  (exists e, newtonRaphson k y_train x_design true = (Throw e, k)).
Proof.
  intros Hc Hr Hmax. split; [|split].
  - intros y_pred V Ep. apply predictLogitProbs_size in Ep.
    apply firth_update_throws; lia.
  - now apply firth_iteration_throws.
  - unfold newtonRaphson, newtonRaphson_stage.
    destruct (newtonRaphson_starting_point y_train x_design) as [sp|e] eqn:Es;
      [|eexists; reflexivity].
    apply newtonRaphson_starting_point_size in Es. destruct Es as [_ Es].
    destruct max_nr_iterations as [|n]; [lia|]. cbn [iterate].
    destruct (@firth_iteration_throws _ x_design y_train sp Es Hr) as (e & ->).
    eexists; reflexivity.
Qed.

Lemma firth_branch_throws_witness :
  n_cols (colvec [0; 0]%float) = 1 /\ 2 <= n_rows Reference.mixed_design /\
  1 <= @max_nr_iterations Reference.reference_fit /\
  (forall y_pred V,
     @predictLogitProbs Reference.reference_fit Reference.mixed_design
       (colvec [0; 0]%float) = Ok y_pred ->
     @firth_update Reference.reference_fit Reference.mixed_design Reference.phenotype
       y_pred V (colvec [0; 0]%float)
     = Throw "matrix multiplication: incompatible matrix dimensions") /\
  (exists e, @iteration Reference.reference_fit true Reference.mixed_design
               Reference.phenotype (colvec [0; 0]%float) = Throw e) /\
  (exists e, @newtonRaphson Reference.reference_fit (Reference.fresh Reference.mixed)
               Reference.phenotype Reference.mixed_design true
             = (Throw e, Reference.fresh Reference.mixed)).
Proof.
  assert (Hc : n_cols (colvec [0; 0]%float) = 1) by reflexivity.
  assert (Hr : 2 <= n_rows Reference.mixed_design) by (vm_compute; lia).
  assert (Hm : 1 <= @max_nr_iterations Reference.reference_fit) by (vm_compute; lia).
  split; [exact Hc|]. split; [exact Hr|]. split; [exact Hm|].
  exact (@firth_branch_throws Reference.reference_fit
           (Reference.fresh Reference.mixed) Reference.phenotype
           Reference.mixed_design (colvec [0; 0]%float) Hc Hr Hm).
Defined.

(** C7.  The cascade after a failed gradient stage.  "bfgs-fail" is added
    before the Newton-Raphson stage runs.  When that stage uses all its
    passes without converging, the Firth stage is not run: the results of
    the last pass are written and the feature carries "bfgs-fail" alone.
    The Firth stage is run only after a Newton-Raphson loop that stopped by
    [break] on pass [max_nr_iterations - 1]. *)
Theorem doLogit_cascade `{Externals}
    (uninit : nat -> nat -> float) (k k1 : Kmer)
    (y_train x_train x_design sp_gradient sp_newton : dmat) (e : string)
    (size : nat) (back V : dmat) (broke : bool) :
  1 <= max_nr_iterations ->
  join_rows (ones (n_rows x_train) 1) x_train = Ok x_design ->
  doLogit_starting_point y_train x_design = Ok sp_gradient ->
  gradient_stage uninit x_train y_train x_design sp_gradient k = (Throw e, k1) ->
  newtonRaphson_starting_point y_train x_design = Ok sp_newton ->
  iterate false x_design y_train max_nr_iterations 1 sp_newton
          (Mat 0 0 (fun _ _ => 0%float)) = Ok (size, back, V, broke) ->
  let k2 := add_comment "bfgs-fail" k1 in
  let out := doLogit uninit k y_train x_train in
  (broke = false /\ out = report back V k2 /\
   comments (snd out) = comments k ++ ["bfgs-fail"%string] /\
   exists b, beta (snd out) = Some b)
  \/
  (broke = true /\ size = max_nr_iterations /\
   out = newtonRaphson (add_comment "nr-fail" k2) y_train x_design true /\
   exists rest,
     comments (snd out) = comments k ++ "bfgs-fail"%string :: "nr-fail"%string :: rest)
  \/
  (broke = true /\ size <> max_nr_iterations /\ out = report back V k2 /\
   comments (snd out) = comments k ++ ["bfgs-fail"%string]).
Proof.
  intros Hmax Ej Eg Egs En Ei k2 out.
  assert (Hk1 : comments k1 = comments k).
  { pose proof (gradient_stage_comments uninit x_train y_train x_design sp_gradient k)
      as Hc. rewrite Egs in Hc. exact Hc. }
  assert (Hout : out = newtonRaphson k2 y_train x_design false).
  { subst out. unfold doLogit. rewrite Ej. cbn [bind]. rewrite Eg. cbn [bind].
    rewrite Egs. reflexivity. }
  assert (Hk2 : comments k2 = comments k ++ ["bfgs-fail"%string]).
  { subst k2. simpl. now rewrite Hk1. }
  rewrite Hout.
  destruct (plain_stage_cases k2 _ _ En Ei)
    as [(Hb & Hs & Ho)|[(Hb & Hs & Ho)|(Hb & Hs & Ho)]].
  - left. rewrite Ho. split; [assumption|]. split; [reflexivity|].
    split; [now rewrite report_comments|].
    destruct (iterate_back _ _ _ _ _ _ Ei) as (b & Eb); [lia|].
    exists b. now apply report_beta.
  - right; left. rewrite Ho. repeat (split; [assumption || reflexivity|]).
    unfold newtonRaphson.
    destruct (firth_stage_comments (fun k' => (Ok tt, k'))
                (add_comment "nr-fail" k2) y_train x_design) as (rest & Er).
    exists rest. rewrite Er. simpl. rewrite Hk1. rewrite <- !app_assoc. reflexivity.
  - right; right. rewrite Ho. repeat (split; [assumption || reflexivity|]).
    now rewrite report_comments.
Qed.

Lemma doLogit_cascade_witness :
  let E := Reference.reference_three in
  let k := Reference.fresh Reference.mixed in
  let back := snd (fst (fst Reference.mixed_three_passes)) in
  let V := snd (fst Reference.mixed_three_passes) in
  1 <= @max_nr_iterations E /\
  join_rows (ones (n_rows Reference.mixed) 1) Reference.mixed
    = Ok Reference.mixed_design /\
  @doLogit_starting_point E Reference.phenotype Reference.mixed_design
    = Ok Reference.mixed_gradient_start /\
  @gradient_stage E (fun _ _ => nan) Reference.mixed Reference.phenotype
    Reference.mixed_design Reference.mixed_gradient_start k
    = (Throw "find_max: no progress", k) /\
  @newtonRaphson_starting_point E Reference.phenotype Reference.mixed_design
    = Ok Reference.mixed_newton_start /\
  @iterate E false Reference.mixed_design Reference.phenotype (@max_nr_iterations E) 1
    Reference.mixed_newton_start (Mat 0 0 (fun _ _ => 0%float))
    = Ok (4, back, V, false) /\
  let k2 := add_comment "bfgs-fail" k in
  let out := @doLogit E (fun _ _ => nan) k Reference.phenotype Reference.mixed in
  (false = false /\ out = @report E back V k2 /\
   comments (snd out) = comments k ++ ["bfgs-fail"%string] /\
   exists b, beta (snd out) = Some b)
  \/
  (false = true /\ 4 = @max_nr_iterations E /\
   out = @newtonRaphson E (add_comment "nr-fail" k2) Reference.phenotype
           Reference.mixed_design true /\
   exists rest,
     comments (snd out) = comments k ++ "bfgs-fail"%string :: "nr-fail"%string :: rest)
  \/
  (false = true /\ 4 <> @max_nr_iterations E /\ out = @report E back V k2 /\
   comments (snd out) = comments k ++ ["bfgs-fail"%string]).
Proof.
  intros E k back V.
  assert (Hmax : 1 <= @max_nr_iterations E) by (vm_compute; lia).
  assert (Ej : join_rows (ones (n_rows Reference.mixed) 1) Reference.mixed
               = Ok Reference.mixed_design) by (vm_compute; reflexivity).
  assert (Eg : @doLogit_starting_point E Reference.phenotype Reference.mixed_design
               = Ok Reference.mixed_gradient_start) by (vm_compute; reflexivity).
  assert (Egs : @gradient_stage E (fun _ _ => nan) Reference.mixed Reference.phenotype
                  Reference.mixed_design Reference.mixed_gradient_start k
                = (Throw "find_max: no progress", k)) by reflexivity.
  assert (En : @newtonRaphson_starting_point E Reference.phenotype
                 Reference.mixed_design = Ok Reference.mixed_newton_start)
    by (vm_compute; reflexivity).
  assert (Ei : @iterate E false Reference.mixed_design Reference.phenotype
                 (@max_nr_iterations E) 1 Reference.mixed_newton_start
                 (Mat 0 0 (fun _ _ => 0%float)) = Ok (4, back, V, false))
    by (vm_compute; reflexivity).
  split; [exact Hmax|]. split; [exact Ej|]. split; [exact Eg|].
  split; [exact Egs|]. split; [exact En|]. split; [exact Ei|].
  exact (@doLogit_cascade E (fun _ _ => nan) k k Reference.phenotype Reference.mixed
           Reference.mixed_design Reference.mixed_gradient_start
           Reference.mixed_newton_start "find_max: no progress" 4 back V false
           Hmax Ej Eg Egs En Ei).
Defined.

(** *** The cascade run on the reference data *)

(** Feature equal to the phenotype, at most 1000 passes: the coefficient
    grows until the weights vanish, no pass meets the convergence test, and
    the fit is reported with not-a-number results and without "nr-fail". *)
Example separated_fit_is_reported :
  let out := @doLogit Reference.reference_fit (fun _ _ => nan)
               (Reference.fresh Reference.separated)
               Reference.phenotype Reference.separated in
  fst out = Ok tt /\
  comments (snd out) = ["bfgs-fail"%string] /\
  beta (snd out) = Some nan /\
  standard_error (snd out) = Some nan /\
  p_val (snd out) = Some nan.
Proof. vm_compute. repeat split. Qed.

(** Mixed feature, at most five passes: the loop converges on its fourth
    pass, the size test succeeds, the fit is tagged "nr-fail" although it
    converged, and the Firth stage leaves by an exception. *)
Example converged_fit_is_tagged :
  let out := @doLogit Reference.reference_five (fun _ _ => nan)
               (Reference.fresh Reference.mixed)
               Reference.phenotype Reference.mixed in
  fst out = Throw "matrix multiplication: incompatible matrix dimensions" /\
  comments (snd out) = ["bfgs-fail"%string; "nr-fail"%string] /\
  beta (snd out) = None /\
  @iterate Reference.reference_five false Reference.mixed_design Reference.phenotype
    5 1 Reference.mixed_newton_start (Mat 0 0 (fun _ _ => 0%float))
  = @iterate Reference.reference_five false Reference.mixed_design Reference.phenotype
      4 1 Reference.mixed_newton_start (Mat 0 0 (fun _ _ => 0%float)).
Proof. vm_compute. repeat split. Qed.

(** Mixed feature, at most three passes: none of them converges, and the
    fit is reported from the third iterate, untagged. *)
Example exhausted_fit_is_reported :
  let out := @doLogit Reference.reference_three (fun _ _ => nan)
               (Reference.fresh Reference.mixed)
               Reference.phenotype Reference.mixed in
  fst out = Ok tt /\
  comments (snd out) = ["bfgs-fail"%string] /\
  beta (snd out) = Some 1.3862943568050725%float /\
  snd Reference.mixed_three_passes = false.
Proof. vm_compute. repeat split. Qed.

End FitProperties.

(** ** Metric MDS *)

Module MDSFacts.
Import Arma ArmaFacts MDS.
Local Open Scope nat_scope.

(** *** Two facts of binary64 arithmetic *)

Lemma sqrt_negative (x : float) :
  PrimFloat.ltb x 0 = true -> PrimFloat.sqrt x = nan.
Proof.
  intros Hlt. apply Prim2SF_inj. rewrite FloatAxioms.sqrt_spec. rewrite FloatAxioms.ltb_spec in Hlt.
  change (Prim2SF 0) with (S754_zero false) in Hlt.
  change (Prim2SF nan) with S754_nan.
  destruct (Prim2SF x) as [s|s| |s m e]; try destruct s;
    try discriminate; reflexivity.
Qed.

Lemma mul_nan_r (y : float) : (y * nan)%float = nan.
Proof.
  apply Prim2SF_inj. rewrite FloatAxioms.mul_spec. change (Prim2SF nan) with S754_nan.
  destruct (Prim2SF y) as [s|s| |s m e]; reflexivity.
Qed.

(** *** Shapes and elements *)

Lemma sum_upto_ext n f g :
  (forall k, k < n -> f k = g k) -> sum_upto n f = sum_upto n g.
Proof.
  intros Hfg. unfold sum_upto. f_equal. apply map_seq_ext. intros k Hk.
  apply Hfg. lia.
Qed.

Lemma lin_in_range (A : dmat) k :
  k < n_elem A -> k mod n_rows A < n_rows A /\ k / n_rows A < n_cols A.
Proof.
  unfold n_elem. intros Hk. destruct (n_rows A) as [|r] eqn:Er; [simpl in Hk; lia|].
  split; [apply Nat.mod_upper_bound; lia|].
  apply Nat.Div0.div_lt_upper_bound. lia.
Qed.

Lemma lin_map_mat f (A : dmat) k :
  k < n_elem A -> lin (map_mat f A) k = f (lin A k).
Proof.
  intros Hk. destruct (lin_in_range A Hk) as [H1 H2].
  unfold lin, map_mat. rewrite n_rows_tabulate.
  destruct (n_rows A) as [|r] eqn:Er; [lia|].
  rewrite at_tabulate by assumption. reflexivity.
Qed.

Lemma dist_shape (uninit : nat -> nat -> float) (M : dmat) threads :
  1 <= threads ->
  exists dist, Distance.dissimiliarityMatrix uninit M threads = Some dist /\
               n_rows dist = n_rows M /\ n_cols dist = n_rows M.
Proof.
  intros Ht.
  destruct (DistanceFacts.threaded_is_sync uninit M Ht) as (d & E & (S1 & S2 & _)).
  destruct (DistanceFacts.sync_elements uninit M) as (N1 & N2 & _).
  exists d. split; [exact E|]. split; congruence.
Qed.

Section Facts.
Context `{Externals}.

Lemma centering_elements n :
  exists J, centering n = Ok J /\ n_rows J = n /\ n_cols J = n /\
            forall i j, i < n -> j < n -> at_ J i j = J_elem n i j.
Proof.
  unfold centering, sub, zip_mat, same_size, eye, scale, ones, map_mat.
  rewrite !n_rows_tabulate, !n_cols_tabulate, !Nat.eqb_refl. cbn [andb].
  eexists; split; [reflexivity|].
  rewrite n_rows_tabulate, n_cols_tabulate. split; [reflexivity|]. split; [reflexivity|].
  intros i j Hi Hj. rewrite !at_tabulate by assumption. reflexivity.
Qed.

Lemma double_centered_elements n (dist : dmat) :
  n_rows dist = n -> n_cols dist = n ->
  exists B, double_centered n (square dist) = Ok B /\
            n_rows B = n /\ n_cols B = n /\
            forall i j, i < n -> j < n -> at_ B i j = B_elem n dist i j.
Proof.
  intros Hr Hc. unfold double_centered.
  destruct (centering_elements n) as (J & EJ & Jr & Jc & Jel). rewrite EJ. cbn [bind].
  unfold mul at 1. unfold scale, square, map_mat.
  rewrite !n_rows_tabulate, !n_cols_tabulate, Jr, Jc, Hr, Hc, Nat.eqb_refl. cbn [bind].
  unfold mul. rewrite !n_rows_tabulate, !n_cols_tabulate, Jr, Jc, Nat.eqb_refl.
  eexists; split; [reflexivity|].
  rewrite n_rows_tabulate, n_cols_tabulate.
  split; [reflexivity|]. split; [reflexivity|].
  intros i j Hi Hj. rewrite at_tabulate by assumption. unfold B_elem.
  apply sum_upto_ext. intros k Hk.
  rewrite at_tabulate by assumption. rewrite Jel by assumption. f_equal.
  apply sum_upto_ext. intros l Hl.
  rewrite !at_tabulate by assumption. rewrite Jel by assumption. reflexivity.
Qed.

(** Steps 4 and 5: column [j] of the embedding is eigenvector [n - 1 - j]
    times the square root of eigenvalue [n - 1 - j]. *)
Lemma embed_elements n (B : dmat) (dimensions : Z) :
  n_rows (snd (eig_sym B)) = n -> n_cols (snd (eig_sym B)) = n ->
  n_elem (fst (eig_sym B)) = n ->
  (1 <= dimensions <= Z.of_nat n)%Z -> (dimensions < 2 ^ 31)%Z ->
  exists emb, embed B dimensions = Ok emb /\
              n_rows emb = n /\ n_cols emb = Z.to_nat dimensions /\
              forall i j, i < n -> j < Z.to_nat dimensions ->
                at_ emb i j
                = (at_ (snd (eig_sym B)) i (n - 1 - j)
                   * PrimFloat.sqrt (lin (fst (eig_sym B)) (n - 1 - j)))%float.
Proof.
  intros Vr Vc Le Hd Hint. unfold embed.
  destruct (eig_sym B) as [eigval eigvec]. cbn [fst snd] in *.
  assert (Hse : n_elem (sqrt eigval) = n).
  { unfold n_elem, sqrt, map_mat. rewrite n_rows_tabulate, n_cols_tabulate.
    exact Le. }
  unfold mul_diagmat. rewrite Vc, Hse, Nat.eqb_refl. cbn [bind].
  unfold cols, fliplr. rewrite !n_rows_tabulate, !n_cols_tabulate, Vr.
  assert (Hu : to_uword (dimensions - 1) = Z.to_nat dimensions - 1).
  { unfold to_uword. rewrite Z.mod_small.
    - lia.
    - split; [lia|]. apply Z.lt_trans with (2 ^ 31)%Z; [lia|reflexivity]. }
  rewrite Hu. cbn [Nat.leb].
  destruct (Nat.ltb_spec (Z.to_nat dimensions - 1) n) as [Hlt|Hge]; [|lia].
  cbn [andb]. eexists; split; [reflexivity|].
  rewrite n_rows_tabulate, n_cols_tabulate.
  split; [reflexivity|]. split; [lia|].
  intros i j Hi Hj. rewrite at_tabulate by lia. rewrite at_tabulate by lia.
  rewrite at_tabulate by lia. unfold sqrt. rewrite lin_map_mat by lia.
  reflexivity.
Qed.

End Facts.
End MDSFacts.


Module MDSProperties.
Import Arma ArmaFacts MDS MDSFacts.
Local Open Scope nat_scope.

(** [metricMDS] is [metricMDS_of] applied to the matrix that
    [dissimiliarityMatrix] returns. *)
Lemma metricMDS_steps `{Externals}
    (uninit : nat -> nat -> float) (populationMatrix : dmat)
    (dimensions : Z) (threads : nat) :
  metricMDS uninit populationMatrix dimensions threads
  = match Distance.dissimiliarityMatrix uninit populationMatrix threads with
    | Some dist => Some (metricMDS_of (n_rows populationMatrix) dist dimensions)
    | None => None
    end.
Proof. reflexivity. Qed.

(** C5.  For a dissimilarity matrix over [n] samples and [1 <= d <= n],
    [metricMDS] returns a matrix with [n] rows and exactly [d] columns.  It
    squares the distances, forms [B = -0.5 * J * P * J] with
    [J = I - (1/n) 11'], decomposes [B], and column [j] of the result is the
    eigenvector of index [n - 1 - j] (the eigenvalues come ascending, so the
    largest first) scaled by the square root of its eigenvalue. *)
Theorem metricMDS_embedding `{Externals} (n : nat) (dist : dmat) (dimensions : Z) :
  n_rows dist = n -> n_cols dist = n ->
  (1 <= dimensions <= Z.of_nat n)%Z -> (dimensions < 2 ^ 31)%Z ->
  eig_sym_shape n ->
  exists B emb,
    double_centered n (square dist) = Ok B /\
    n_rows B = n /\ n_cols B = n /\
    (forall i j, i < n -> j < n -> at_ B i j = B_elem n dist i j) /\
    metricMDS_of n dist dimensions = Ok emb /\
    n_rows emb = n /\ n_cols emb = Z.to_nat dimensions /\
    forall i j, i < n -> j < Z.to_nat dimensions ->
      at_ emb i j
      = (at_ (snd (eig_sym B)) i (n - 1 - j)
         * PrimFloat.sqrt (lin (fst (eig_sym B)) (n - 1 - j)))%float.
Proof.
  intros Dr Dc Hd Hint Hshape.
  destruct (@double_centered_elements n dist Dr Dc) as (B & EB & Br & Bc & Bel).
  destruct (Hshape B Br Bc) as (Vr & Vc & Le).
  destruct (@embed_elements _ n B dimensions Vr Vc Le Hd Hint)
    as (emb & Ee & Er & Ec & Eel).
  exists B, emb.
  split; [exact EB|]. split; [exact Br|]. split; [exact Bc|].
  split; [exact Bel|]. split.
  - unfold metricMDS_of. rewrite EB. cbn [bind]. exact Ee.
  - split; [exact Er|]. split; [exact Ec|exact Eel].
Qed.

(** C9.  No guard stands before the square root: when the eigenvalue behind
    column [j] of the embedding is negative, every element of that column is
    not-a-number. *)
Theorem metricMDS_negative_eigenvalue `{Externals}
    (n : nat) (dist B : dmat) (dimensions : Z) (j : nat) :
  n_rows dist = n -> n_cols dist = n ->
  (1 <= dimensions <= Z.of_nat n)%Z -> (dimensions < 2 ^ 31)%Z ->
  eig_sym_shape n ->
  double_centered n (square dist) = Ok B ->
  j < Z.to_nat dimensions ->
  PrimFloat.ltb (lin (fst (eig_sym B)) (n - 1 - j)) 0 = true ->
  exists emb,
    metricMDS_of n dist dimensions = Ok emb /\
    forall i, i < n -> at_ emb i j = nan /\ PrimFloat.is_nan (at_ emb i j) = true.
Proof.
  intros Dr Dc Hd Hint Hshape EB Hj Hneg.
  destruct (@double_centered_elements n dist Dr Dc) as (B' & EB' & Br & Bc & _).
  rewrite EB in EB'. injection EB' as <-.
  destruct (Hshape B Br Bc) as (Vr & Vc & Le).
  destruct (@embed_elements _ n B dimensions Vr Vc Le Hd Hint)
    as (emb & Ee & _ & _ & Eel).
  exists emb. split.
  - unfold metricMDS_of. rewrite EB. cbn [bind]. exact Ee.
  - intros i Hi. rewrite (Eel i j Hi Hj), (sqrt_negative Hneg), mul_nan_r.
    split; reflexivity.
Qed.

Lemma reference_eig_sym_shape : @eig_sym_shape Reference.reference_fit 4.
Proof. intros B _ _. split; [reflexivity|]. split; reflexivity. Qed.

Lemma metricMDS_embedding_witness :
  let E := Reference.reference_fit in
  n_rows Reference.corners_dist = 4 /\ n_cols Reference.corners_dist = 4 /\
  (1 <= 2 <= Z.of_nat 4)%Z /\ (2 < 2 ^ 31)%Z /\ @eig_sym_shape E 4 /\
  exists B emb,
    double_centered 4 (square Reference.corners_dist) = Ok B /\
    n_rows B = 4 /\ n_cols B = 4 /\
    (forall i j, i < 4 -> j < 4 -> at_ B i j = B_elem 4 Reference.corners_dist i j) /\
    @metricMDS_of E 4 Reference.corners_dist 2 = Ok emb /\
    n_rows emb = 4 /\ n_cols emb = Z.to_nat 2 /\
    forall i j, i < 4 -> j < Z.to_nat 2 ->
      at_ emb i j
      = (at_ (snd (@eig_sym E B)) i (4 - 1 - j)
         * PrimFloat.sqrt (lin (fst (@eig_sym E B)) (4 - 1 - j)))%float.
Proof.
  intros E.
  assert (Dr : n_rows Reference.corners_dist = 4) by reflexivity.
  assert (Dc : n_cols Reference.corners_dist = 4) by reflexivity.
  assert (Hd : (1 <= 2 <= Z.of_nat 4)%Z) by (vm_compute; split; discriminate).
  assert (Hi : (2 < 2 ^ 31)%Z) by reflexivity.
  split; [exact Dr|]. split; [exact Dc|]. split; [exact Hd|]. split; [exact Hi|].
  split; [exact reference_eig_sym_shape|].
  exact (@metricMDS_embedding E 4 Reference.corners_dist 2
           Dr Dc Hd Hi reference_eig_sym_shape).
Defined.

Lemma metricMDS_negative_eigenvalue_witness :
  let E := Reference.reference_fit in
  n_rows Reference.corners_dist = 4 /\ n_cols Reference.corners_dist = 4 /\
  (1 <= 4 <= Z.of_nat 4)%Z /\ (4 < 2 ^ 31)%Z /\ @eig_sym_shape E 4 /\
  double_centered 4 (square Reference.corners_dist) = Ok Reference.corners_B /\
  3 < Z.to_nat 4 /\
  PrimFloat.ltb (lin (fst (@eig_sym E Reference.corners_B)) (4 - 1 - 3)) 0 = true /\
  exists emb,
    @metricMDS_of E 4 Reference.corners_dist 4 = Ok emb /\
    forall i, i < 4 -> at_ emb i 3 = nan /\ PrimFloat.is_nan (at_ emb i 3) = true.
Proof.
  intros E.
  assert (Dr : n_rows Reference.corners_dist = 4) by reflexivity.
  assert (Dc : n_cols Reference.corners_dist = 4) by reflexivity.
  assert (Hd : (1 <= 4 <= Z.of_nat 4)%Z) by (vm_compute; split; discriminate).
  assert (Hi : (4 < 2 ^ 31)%Z) by reflexivity.
  assert (EB : double_centered 4 (square Reference.corners_dist)
               = Ok Reference.corners_B) by (vm_compute; reflexivity).
  assert (Hj : 3 < Z.to_nat 4) by (vm_compute; lia).
  assert (Hneg : PrimFloat.ltb
                   (lin (fst (@eig_sym E Reference.corners_B)) (4 - 1 - 3)) 0 = true)
    by (vm_compute; reflexivity).
  split; [exact Dr|]. split; [exact Dc|]. split; [exact Hd|]. split; [exact Hi|].
  split; [exact reference_eig_sym_shape|]. split; [exact EB|].
  split; [exact Hj|]. split; [exact Hneg|].
  exact (@metricMDS_negative_eigenvalue E 4 Reference.corners_dist Reference.corners_B
           4 3 Dr Dc Hd Hi reference_eig_sym_shape EB Hj Hneg).
Defined.

(** The reference decomposition is one of the double-centred matrix of
    [square_corners]: its eigenvalues are -1, 0, 2 and 2, ascending, and
    [B v = lambda v] holds for each column. *)
Example reference_decomposition :
  let '(eigval, eigvec) := @eig_sym Reference.reference_fit Reference.corners_B in
  elems eigval = [-1; 0; 2; 2]%float /\
  forall j, j < 4 ->
    map (fun i => sum_upto 4 (fun c => at_ Reference.corners_B i c * at_ eigvec c j)%float)
        (seq 0 4)
    = map (fun i => lin eigval j * at_ eigvec i j)%float (seq 0 4).
Proof.
  split; [vm_compute; reflexivity|].
  intros j Hj. destruct j as [|[|[|[|j]]]]; [| | | |lia]; vm_compute; reflexivity.
Qed.

(** All four dimensions asked for the distances between the rows of
    [square_corners]: the last column, behind the eigenvalue -1, is
    not-a-number in every row. *)
Example corners_embedding :
  match @metricMDS_of Reference.reference_fit 4 Reference.corners_dist 4 with
  | Ok emb =>
      n_rows emb = 4 /\ n_cols emb = 4 /\
      map (fun i => at_ emb i 3) (seq 0 4) = [nan; nan; nan; nan] /\
      map (fun i => at_ emb i 2) (seq 0 4) = [0; 0; 0; 0]%float
  | Throw _ => False
  end.
Proof. vm_compute. repeat split. Qed.

End MDSProperties.

(** ** Inference: the information matrix and the reported statistics *)

Module InferenceFacts.
Import Arma ArmaFacts Logit FitFacts.
Local Open Scope nat_scope.

Section Facts.
Context `{Externals}.

Variables x y_trans : dmat.

Local Abbreviation mirrored := (mirrored x y_trans).

Lemma information_step_keeps i j v I r c :
  i <= j -> information_entry x y_trans i j = Ok v ->
  mirrored I r c ->
  mirrored (let I1 := set_at I i j v in
            if i =? j then I1 else set_at I1 j i (at_ I1 i j)) r c.
Proof.
  unfold mirrored. intros Hij Ev Hs. cbn zeta.
  destruct (Nat.eqb_spec i j) as [->|Hne]; cbn [set_at at_].
  - destruct (Nat.eqb_spec r j), (Nat.eqb_spec c j); cbn [andb]; try assumption.
    subst. rewrite Nat.min_id, Nat.max_id. exact Ev.
  - rewrite !Nat.eqb_refl. cbn [andb].
    destruct (Nat.eqb_spec r j), (Nat.eqb_spec c i), (Nat.eqb_spec r i),
      (Nat.eqb_spec c j); cbn [andb]; subst; try assumption; try congruence.
    + now rewrite Nat.min_r, Nat.max_l by lia.
    + now rewrite Nat.min_l, Nat.max_r by lia.
Qed.

Lemma information_step_sets i j v I :
  i <= j -> information_entry x y_trans i j = Ok v ->
  let I2 := (let I1 := set_at I i j v in
             if i =? j then I1 else set_at I1 j i (at_ I1 i j)) in
  mirrored I2 i j /\ mirrored I2 j i.
Proof.
  unfold mirrored. intros Hij Ev. cbn zeta.
  destruct (Nat.eqb_spec i j) as [->|Hne]; cbn [set_at at_].
  - rewrite !Nat.eqb_refl. cbn [andb]. rewrite Nat.min_id, Nat.max_id.
    split; exact Ev.
  - rewrite !Nat.eqb_refl. cbn [andb].
    destruct (Nat.eqb_spec j i); [congruence|].
    destruct (Nat.eqb_spec i j); [congruence|]. cbn [andb].
    rewrite Nat.min_l, Nat.max_r, Nat.min_r, Nat.max_l by lia.
    split; exact Ev.
Qed.

Lemma information_row_spec i js : forall I I',
  Forall (fun j => i <= j) js ->
  information_row x y_trans i js I = Ok I' ->
  n_rows I' = n_rows I /\ n_cols I' = n_cols I /\
  (forall r c, mirrored I r c -> mirrored I' r c) /\
  (forall j, In j js -> mirrored I' i j /\ mirrored I' j i).
Proof.
  induction js as [|j js IH]; intros I I' Hjs E; simpl in E.
  - injection E as <-. split; [reflexivity|]. split; [reflexivity|].
    split; [intros; assumption|intros j []].
  - inversion Hjs as [|? ? Hj Hjs']; subst.
    destruct (information_entry x y_trans i j) as [v|] eqn:Ev; [|discriminate].
    cbn [bind] in E. apply IH in E; [|assumption].
    destruct E as (E1 & E2 & Ek & Es).
    split; [rewrite E1; destruct (i =? j); reflexivity|].
    split; [rewrite E2; destruct (i =? j); reflexivity|].
    split.
    + intros r c Hm. apply Ek. now apply information_step_keeps.
    + intros j' [<-|Hin].
      * destruct (information_step_sets I Hj Ev) as [S1 S2].
        split; apply Ek; assumption.
      * now apply Es.
Qed.

Lemma information_rows_spec j_max is_ : forall I I',
  information_rows x y_trans j_max is_ I = Ok I' ->
  n_rows I' = n_rows I /\ n_cols I' = n_cols I /\
  (forall r c, mirrored I r c -> mirrored I' r c) /\
  (forall i j, In i is_ -> i <= j < j_max -> mirrored I' i j /\ mirrored I' j i).
Proof.
  induction is_ as [|i is_ IH]; intros I I' E; simpl in E.
  - injection E as <-. split; [reflexivity|]. split; [reflexivity|].
    split; [intros; assumption|intros i j []].
  - destruct (information_row x y_trans i (seq i (j_max - i)) I) as [I1|] eqn:Er;
      [|discriminate].
    cbn [bind] in E. apply IH in E. destruct E as (E1 & E2 & Ek & Es).
    apply information_row_spec in Er; [|apply DistanceFacts.seq_from_le].
    destruct Er as (R1 & R2 & Rk & Rs).
    split; [congruence|]. split; [congruence|]. split.
    + intros r c Hm. apply Ek, Rk, Hm.
    + intros i' j [<-|Hin] Hj.
      * assert (Hin : In j (seq i (j_max - i))) by (apply in_seq; lia).
        destruct (Rs j Hin) as [S1 S2]. split; apply Ek; assumption.
      * now apply Es.
Qed.

(** With conforming sizes the sum is defined: it is element [(i, j)] of
    [X' W X], for the weights [y_trans]. *)
Lemma information_entry_sum i j :
  n_rows y_trans = n_rows x -> n_cols y_trans = 1 ->
  i < n_cols x -> j < n_cols x ->
  information_entry x y_trans i j = Ok (information_sum x y_trans i j).
Proof.
  intros Hr Hc Hi Hj. unfold information_entry, col.
  destruct (Nat.ltb_spec i (n_cols x)) as [_|]; [|lia].
  destruct (Nat.ltb_spec j (n_cols x)) as [_|]; [|lia].
  cbn [bind]. unfold schur at 1. unfold zip_mat, same_size.
  rewrite n_rows_tabulate, n_cols_tabulate, Hr, Hc, !Nat.eqb_refl. cbn [andb bind].
  unfold schur, zip_mat, same_size.
  rewrite !n_rows_tabulate, !n_cols_tabulate, !Nat.eqb_refl. cbn [andb bind].
  f_equal. unfold accu_mat, information_sum, n_elem.
  rewrite n_rows_tabulate, n_cols_tabulate, Nat.mul_1_r.
  apply MDSFacts.sum_upto_ext. intros k Hk.
  rewrite lin_column by (rewrite ?n_rows_tabulate, ?n_cols_tabulate; lia).
  rewrite !at_tabulate by lia. reflexivity.
Qed.

End Facts.

Section Matrix.
Context `{Externals}.

(** The matrix that [varCovarMat] inverts: the sums of the upper triangle,
    mirrored. *)
Lemma information_elements uninit (x b : dmat) I :
  n_cols b = 1 -> information uninit x b = Ok I ->
  exists y_pred y_trans,
    predictLogitProbs x b = Ok y_pred /\
    schur y_pred (map_mat (fun p => 1 - p)%float y_pred) = Ok y_trans /\
    n_rows I = n_elem b /\ n_cols I = n_elem b /\
    forall i j, i < n_elem b -> j < n_elem b ->
      at_ I i j = information_sum x y_trans (Nat.min i j) (Nat.max i j).
Proof.
  intros Hb E. unfold information in E.
  destruct (predictLogitProbs x b) as [y_pred|] eqn:Ep; [|discriminate].
  cbn [bind] in E.
  destruct (schur y_pred _) as [y_trans|] eqn:Et; [|discriminate].
  cbn [bind n_rows n_cols] in E.
  exists y_pred, y_trans. split; [reflexivity|]. split; [exact Et|].
  apply information_rows_spec in E. destruct E as (E1 & E2 & _ & Es).
  cbn [n_rows n_cols] in E1, E2. split; [exact E1|]. split; [exact E2|].
  assert (Hp : n_rows y_pred = n_rows x /\ n_cols y_pred = n_cols b)
    by now apply predictLogitProbs_size.
  assert (Hx : n_cols x = n_elem b).
  { unfold predictLogitProbs, mul in Ep.
    destruct (Nat.eqb_spec (n_cols x) (n_rows b)) as [Ex|]; [|discriminate].
    unfold n_elem. rewrite Hb. lia. }
  assert (Ht : n_rows y_trans = n_rows x /\ n_cols y_trans = 1).
  { unfold schur, zip_mat in Et. destruct (same_size y_pred _); [|discriminate].
    injection Et as <-. rewrite n_rows_tabulate, n_cols_tabulate. split; [tauto|].
    destruct Hp as [_ ->]. exact Hb. }
  destruct Ht as [Tr Tc].
  intros i j Hi Hj.
  assert (Hm : mirrored x y_trans I i j).
  { destruct (Nat.le_ge_cases i j).
    - apply (Es i j); [apply in_seq|]; lia.
    - apply (Es j i); [apply in_seq|]; lia. }
  unfold mirrored in Hm.
  rewrite information_entry_sum in Hm by (assumption || lia).
  injection Hm as Hm. symmetry. exact Hm.
Qed.

End Matrix.
Section Passes.
Context `{Externals}.

Lemma iteration_covariance_elements (x_design y_pred V : dmat) :
  iteration_covariance x_design y_pred = Ok V ->
  exists w M,
    n_elem w = n_rows x_design /\
    (forall k, k < n_rows x_design ->
       lin w k = (at_ y_pred k 0 * (1 - at_ y_pred k 0))%float) /\
    inv_covar M = Ok V /\
    n_rows M = n_cols x_design /\ n_cols M = n_cols x_design /\
    forall i j, i < n_cols x_design -> j < n_cols x_design ->
      at_ M i j = weighted_gram x_design w i j.
Proof.
  unfold iteration_covariance. intros E.
  destruct (sub (ones (n_rows y_pred) 1) y_pred) as [d|] eqn:Ed; [|discriminate].
  cbn [bind] in E.
  destruct (schur y_pred d) as [w|] eqn:Ew; [|discriminate]. cbn [bind] in E.
  unfold mul_diagmat in E. rewrite n_cols_t, n_rows_t in E.
  destruct (Nat.eqb_spec (n_rows x_design) (n_elem w)) as [En|]; [|discriminate].
  cbn [bind] in E. unfold mul in E. rewrite n_cols_tabulate, n_rows_tabulate in E.
  rewrite <- En, Nat.eqb_refl in E. cbn [bind] in E.
  (* the shapes *)
  unfold sub, zip_mat, same_size, ones in Ed.
  rewrite n_rows_tabulate, n_cols_tabulate, Nat.eqb_refl in Ed. cbn [andb] in Ed.
  destruct (Nat.eqb_spec 1 (n_cols y_pred)) as [Hc|]; [|discriminate].
  injection Ed as <-.
  unfold schur, zip_mat, same_size in Ew.
  rewrite n_rows_tabulate, n_cols_tabulate, <- Hc, !Nat.eqb_refl in Ew.
  cbn [andb] in Ew. injection Ew as <-.
  unfold n_elem in En. rewrite n_rows_tabulate, n_cols_tabulate, Nat.mul_1_r in En.
  match type of E with context [lin ?w0 _] => exists w0 end.
  match type of E with inv_covar ?M0 = _ => exists M0 end.
  split; [|split; [|split; [exact E|]]].
  - unfold n_elem. rewrite n_rows_tabulate, n_cols_tabulate. lia.
  - intros k Hk.
    rewrite lin_column by (rewrite ?n_rows_tabulate, ?n_cols_tabulate; lia).
    rewrite !at_tabulate by lia. reflexivity.
  - rewrite n_rows_tabulate, n_cols_tabulate.
    split; [reflexivity|]. split; [reflexivity|].
    intros i j Hi Hj. rewrite at_tabulate by assumption.
    unfold weighted_gram.
    apply MDSFacts.sum_upto_ext. intros k Hk.
    rewrite at_tabulate by lia. unfold t. rewrite at_tabulate by lia.
    reflexivity.
Qed.

Lemma iteration_parts firth (x_design y_train b0 b1 V : dmat) stop :
  iteration firth x_design y_train b0 = Ok (b1, V, stop) ->
  exists y_pred,
    predictLogitProbs x_design b0 = Ok y_pred /\
    iteration_covariance x_design y_pred = Ok V.
Proof.
  unfold iteration. intros E.
  destruct (predictLogitProbs x_design b0) as [y_pred|]; [|discriminate].
  cbn [bind] in E. exists y_pred. split; [reflexivity|].
  destruct (iteration_covariance x_design y_pred) as [V'|]; [|discriminate].
  cbn [bind] in E.
  destruct (if firth then _ else _); [|discriminate]. cbn [bind] in E.
  destruct (elem1 _ 1); [|discriminate]. cbn [bind] in E.
  destruct (elem1 b0 1); [|discriminate]. cbn [bind] in E.
  inversion E; subst. reflexivity.
Qed.

(** The covariance matrix that the loop leaves behind is the one of its
    last pass, computed from the iterate that pass started from. *)
Lemma iterate_last_pass firth x_design y_train n :
  forall size back V size' back' V' broke,
  iterate firth x_design y_train n size back V = Ok (size', back', V', broke) ->
  (size' = size /\ back' = back /\ V' = V) \/
  exists b_prev stop,
    iteration firth x_design y_train b_prev = Ok (back', V', stop).
Proof.
  induction n as [|n IH]; intros size back V size' back' V' broke E; simpl in E.
  - inversion E; subst. left. repeat split.
  - destruct (iteration firth x_design y_train back) as [[[b1 V1] stop]|e] eqn:Ei;
      simpl in E; [|discriminate].
    right. destruct stop.
    + inversion E; subst. eauto.
    + destruct (IH _ _ _ _ _ _ _ E) as [(_ & -> & ->)|Hp]; eauto.
Qed.

Lemma report_statistics back V k k' :
  report back V k = (Ok tt, k') ->
  exists b v, elem1 back 1 = Ok b /\ elem V 1 1 = Ok v /\ k' = with_statistics b v k.
Proof.
  unfold report. intros E.
  destruct (elem1 back 1) as [b|]; [|discriminate].
  destruct (elem V 1 1) as [v|]; [|discriminate].
  exists b, v. split; [reflexivity|]. split; [reflexivity|].
  injection E as <-. reflexivity.
Qed.

End Passes.
End InferenceFacts.

Module InferenceProperties.
Import Arma ArmaFacts Logit FitFacts InferenceFacts.
Local Open Scope nat_scope.
#[local] Set Warnings "-inexact-float".

(** C6, as the code has it.  After a successful gradient stage the standard
    error is the power one half of element (1,1) of [inv_covar] of the
    information matrix at the fitted vector, that matrix being filled over
    its upper triangle and mirrored.  After a successful Newton-Raphson or
    Firth loop it is the power one half of element (1,1) of the covariance
    matrix of the last pass: [inv_covar] of the full product
    [X' diag(p (1 - p)) X] with [p] predicted from the iterate that pass
    started from, not from the final one.  In both cases the Wald statistic
    is [|beta_1|] over that standard error and the p-value is
    [2 (1 - Phi(W))]. *)
Theorem reported_statistics `{Externals}
    (uninit : nat -> nat -> float) (y_train x_train x_design : dmat) :
  (forall sp b_vector k k',
     find_max x_train y_train sp = Ok b_vector -> n_cols b_vector = 1 ->
     gradient_stage uninit x_train y_train x_design sp k = (Ok tt, k') ->
     exists y_pred y_trans I V b v,
       predictLogitProbs x_design b_vector = Ok y_pred /\
       schur y_pred (map_mat (fun p => 1 - p)%float y_pred) = Ok y_trans /\
       (forall i j, i < n_elem b_vector -> j < n_elem b_vector ->
          at_ I i j = information_sum x_design y_trans (Nat.min i j) (Nat.max i j)) /\
       inv_covar I = Ok V /\
       elem1 b_vector 1 = Ok b /\ elem V 1 1 = Ok v /\
       k' = with_statistics b v k)
  /\
  (forall firth sp size back V broke k k',
     iterate firth x_design y_train max_nr_iterations 1 sp (Mat 0 0 (fun _ _ => 0%float))
       = Ok (size, back, V, broke) ->
     report back V k = (Ok tt, k') ->
     exists b_prev y_pred w M stop b v,
       iteration firth x_design y_train b_prev = Ok (back, V, stop) /\
       predictLogitProbs x_design b_prev = Ok y_pred /\
       (forall i, i < n_rows x_design ->
          lin w i = (at_ y_pred i 0 * (1 - at_ y_pred i 0))%float) /\
       (forall i j, i < n_cols x_design -> j < n_cols x_design ->
          at_ M i j = weighted_gram x_design w i j) /\
       inv_covar M = Ok V /\
       elem1 back 1 = Ok b /\ elem V 1 1 = Ok v /\
       k' = with_statistics b v k).
Proof.
  split.
  - intros sp b_vector k k' Ef Hb Eg. unfold gradient_stage in Eg. rewrite Ef in Eg.
    destruct (elem1 b_vector 1) as [b|] eqn:Eb; [|discriminate].
    unfold varCovarMat in Eg.
    destruct (information uninit x_design b_vector) as [I|] eqn:EI;
      [|discriminate].
    cbn [bind] in Eg.
    destruct (inv_covar I) as [V|] eqn:EV; [|discriminate]. cbn [bind] in Eg.
    destruct (elem V 1 1) as [v|] eqn:Ev; [|discriminate].
    destruct (@information_elements _ uninit x_design b_vector I Hb EI)
      as (y_pred & y_trans & Ep & Et & _ & _ & Hel).
    exists y_pred, y_trans, I, V, b, v.
    split; [exact Ep|]. split; [exact Et|]. split; [exact Hel|].
    split; [exact EV|]. split; [reflexivity|]. split; [exact Ev|].
    injection Eg as <-. reflexivity.
  - intros firth sp size back V broke k k' Ei Er.
    destruct (@report_statistics _ back V k k' Er) as (b & v & Eb & Ev & Ek).
    destruct (@iterate_last_pass _ firth x_design y_train _ _ _ _ _ _ _ _ Ei) as [(_ & _ & ->)|(b_prev & stop & Ep)].
    + discriminate.
    + destruct (@iteration_parts _ firth x_design y_train b_prev back V stop Ep) as (y_pred & Ey & Ec).
      destruct (@iteration_covariance_elements _ x_design y_pred V Ec)
        as (w & M & _ & Hw & EM & _ & _ & HM).
      exists b_prev, y_pred, w, M, stop, b, v.
      split; [exact Ep|]. split; [exact Ey|]. split; [exact Hw|].
      split; [exact HM|]. split; [exact EM|]. split; [exact Eb|].
      split; [exact Ev|exact Ek].
Qed.

(** C6 as it is stated fails on the Newton-Raphson path.  On the reference
    data the fit succeeds there; the standard error it reports is the one of
    the covariance matrix of the last pass, 1.7320508069460983, while the
    inverse information matrix evaluated at the fitted vector gives
    1.7320508075688477. *)
Lemma standard_error_not_at_fitted_vector :
  let out := @doLogit Reference.reference_fit (fun _ _ => nan)
               (Reference.fresh Reference.mixed)
               Reference.phenotype Reference.mixed in
  fst out = Ok tt /\
  @iterate Reference.reference_fit false Reference.mixed_design Reference.phenotype
    1000 1 Reference.mixed_newton_start (Mat 0 0 (fun _ _ => 0%float))
    = Ok (5, Reference.mixed_fitted, snd (fst Reference.mixed_converged), true) /\
  Some (lin Reference.mixed_fitted 1) = beta (snd out) /\
  standard_error (snd out) = Some 1.7320508069460983%float /\
  match @varCovarMat Reference.reference_fit (fun _ _ => nan)
          Reference.mixed_design Reference.mixed_fitted with
  | Ok V => @c_pow Reference.reference_fit (at_ V 1 1) 0.5 = 1.7320508075688477%float
  | Throw _ => False
  end /\
  PrimFloat.eqb 1.7320508069460983 1.7320508075688477 = false.
Proof. vm_compute. repeat split. Qed.

Lemma reported_statistics_witness :
  let E := Reference.reference_gradient in
  let k := Reference.fresh Reference.mixed in
  let out := @gradient_stage E (fun _ _ => nan) Reference.mixed Reference.phenotype
               Reference.mixed_design Reference.mixed_gradient_start k in
  let out' := @report Reference.reference_fit Reference.mixed_fitted
                (snd (fst Reference.mixed_converged)) k in
  @find_max E Reference.mixed Reference.phenotype Reference.mixed_gradient_start
    = Ok Reference.mixed_fitted /\
  n_cols Reference.mixed_fitted = 1 /\
  fst out = Ok tt /\
  @iterate Reference.reference_fit false Reference.mixed_design Reference.phenotype
    (@max_nr_iterations Reference.reference_fit) 1 Reference.mixed_newton_start
    (Mat 0 0 (fun _ _ => 0%float))
    = Ok (5, Reference.mixed_fitted, snd (fst Reference.mixed_converged), true) /\
  fst out' = Ok tt /\
  (exists b v, snd out = @with_statistics E b v k) /\
  (exists b v, snd out' = @with_statistics Reference.reference_fit b v k).
Proof.
  intros E k out out'.
  assert (Ef : @find_max E Reference.mixed Reference.phenotype
                 Reference.mixed_gradient_start = Ok Reference.mixed_fitted)
    by reflexivity.
  assert (Hc : n_cols Reference.mixed_fitted = 1) by (vm_compute; reflexivity).
  assert (Eg : out = (Ok tt, snd out)) by (vm_compute; reflexivity).
  assert (Ei : @iterate Reference.reference_fit false Reference.mixed_design
                 Reference.phenotype (@max_nr_iterations Reference.reference_fit) 1
                 Reference.mixed_newton_start (Mat 0 0 (fun _ _ => 0%float))
               = Ok (5, Reference.mixed_fitted,
                     snd (fst Reference.mixed_converged), true))
    by (vm_compute; reflexivity).
  assert (Er : out' = (Ok tt, snd out')) by (vm_compute; reflexivity).
  split; [exact Ef|]. split; [exact Hc|].
  split; [rewrite Eg; reflexivity|]. split; [exact Ei|].
  split; [rewrite Er; reflexivity|]. split.
  - destruct (proj1 (@reported_statistics E (fun _ _ => nan) Reference.phenotype
                       Reference.mixed Reference.mixed_design)
                Reference.mixed_gradient_start Reference.mixed_fitted k (snd out)
                Ef Hc Eg)
      as (_ & _ & _ & _ & b & v & _ & _ & _ & _ & _ & _ & Ek).
    exists b, v. exact Ek.
  - destruct (proj2 (@reported_statistics Reference.reference_fit (fun _ _ => nan)
                       Reference.phenotype Reference.mixed Reference.mixed_design)
                false Reference.mixed_newton_start 5 Reference.mixed_fitted
                (snd (fst Reference.mixed_converged)) true k (snd out') Ei Er)
      as (_ & _ & _ & _ & _ & b & v & _ & _ & _ & _ & _ & _ & _ & Ek).
    exists b, v. exact Ek.
Defined.

End InferenceProperties.

(** ** Further properties of the fit *)

Module FitFrame.
Import Arma ArmaFacts Logit FitFacts Vocabulary.
Local Open Scope nat_scope.

Section Facts.
Context `{Externals}.

Lemma report_frame back V k :
  get_x (snd (report back V k)) = get_x k /\
  comments (snd (report back V k)) = comments k.
Proof.
  unfold report. destruct (elem1 back 1); [|split; reflexivity].
  destruct (elem V 1 1); split; reflexivity.
Qed.

(** [report] writes the coefficient first: when it returns normally all
    three results are set, when it throws the standard error and the
    p-value are as before. *)
Lemma report_results back V k :
  match fst (report back V k) with
  | Ok _ => exists b se p,
      beta (snd (report back V k)) = Some b /\
      standard_error (snd (report back V k)) = Some se /\
      p_val (snd (report back V k)) = Some p
  | Throw _ =>
      standard_error (snd (report back V k)) = standard_error k /\
      p_val (snd (report back V k)) = p_val k
  end.
Proof.
  unfold report. destruct (elem1 back 1); [|split; reflexivity].
  destruct (elem V 1 1); cbn [fst snd].
  - eexists; eexists; eexists. repeat split.
  - split; reflexivity.
Qed.

Lemma gradient_stage_frame uninit x_train y_train x_design sp k :
  let out := gradient_stage uninit x_train y_train x_design sp k in
  get_x (snd out) = get_x k /\ comments (snd out) = comments k /\
  match fst out with
  | Ok _ => exists b se p,
      beta (snd out) = Some b /\ standard_error (snd out) = Some se /\
      p_val (snd out) = Some p
  | Throw _ =>
      standard_error (snd out) = standard_error k /\ p_val (snd out) = p_val k
  end.
Proof.
  unfold gradient_stage.
  destruct (find_max x_train y_train sp) as [b|]; [|repeat split].
  destruct (elem1 b 1); [|repeat split].
  destruct (bind _ _); cbn [fst snd].
  - split; [reflexivity|]. split; [reflexivity|].
    eexists; eexists; eexists. repeat split.
  - repeat split.
Qed.

(** One stage of [newtonRaphson], for any continuation that keeps the frame
    [P]. *)
Lemma firth_stage_frame k y_train x_design :
  let out := newtonRaphson_stage true (fun k' => (Ok tt, k')) k y_train x_design in
  get_x (snd out) = get_x k /\
  ((comments (snd out) = comments k /\
    match fst out with
    | Ok _ => exists b se p,
        beta (snd out) = Some b /\ standard_error (snd out) = Some se /\
        p_val (snd out) = Some p
    | Throw _ =>
        standard_error (snd out) = standard_error k /\ p_val (snd out) = p_val k
    end)
   \/
   (comments (snd out) = comments k ++ ["firth-fail"%string] /\
    fst out = Ok tt /\ beta (snd out) = beta k /\
    standard_error (snd out) = standard_error k /\ p_val (snd out) = p_val k)).
Proof.
  unfold newtonRaphson_stage.
  destruct (newtonRaphson_starting_point y_train x_design) as [sp|];
    [|cbn [fst snd]; split; [reflexivity|left; repeat split]].
  destruct (iterate true x_design y_train max_nr_iterations 1 sp _)
    as [[[[size back] V] broke]|];
    [|cbn [fst snd]; split; [reflexivity|left; repeat split]].
  destruct (size =? max_nr_iterations); cbn [negb].
  - cbn [fst snd]. split; [reflexivity|]. right. repeat split.
  - destruct (report_frame back V k) as [Hx Hc]. split; [exact Hx|].
    left. split; [exact Hc|]. apply report_results.
Qed.

Lemma plain_stage_frame k y_train x_design :
  let out := newtonRaphson k y_train x_design false in
  get_x (snd out) = get_x k /\
  (((comments (snd out) = comments k \/
     comments (snd out) = comments k ++ ["nr-fail"%string]) /\
    match fst out with
    | Ok _ => complete (snd out)
    | Throw _ => same_statistics k (snd out)
    end)
   \/
   (comments (snd out) = comments k ++ ["nr-fail"%string; "firth-fail"%string] /\
    fst out = Ok tt /\ beta (snd out) = beta k /\ same_statistics k (snd out))).
Proof.
  change (newtonRaphson k y_train x_design false)
    with (newtonRaphson_stage false
            (fun k' => newtonRaphson_stage true (fun k'' => (Ok tt, k'')) k'
                         y_train x_design) k y_train x_design).
  unfold newtonRaphson_stage at 1.
  destruct (newtonRaphson_starting_point y_train x_design) as [sp|];
    [|cbn [fst snd]; split; [reflexivity|left; split; [left; reflexivity|split; reflexivity]]].
  destruct (iterate false x_design y_train max_nr_iterations 1 sp _)
    as [[[[size back] V] broke]|];
    [|cbn [fst snd]; split; [reflexivity|left; split; [left; reflexivity|split; reflexivity]]].
  destruct (size =? max_nr_iterations); cbn [negb].
  - destruct (firth_stage_frame (add_comment "nr-fail" k) y_train x_design)
      as (Hx & [(Hc & Hr)|(Hc & Ho & Hb & Hs & Hp)]).
    + split; [exact Hx|]. left. split; [right; exact Hc|]. exact Hr.
    + split; [exact Hx|]. right. split.
      * rewrite Hc. cbn [add_comment comments]. now rewrite <- app_assoc.
      * split; [exact Ho|]. split; [exact Hb|]. split; [exact Hs|exact Hp].
  - destruct (report_frame back V k) as [Hx Hc]. split; [exact Hx|].
    left. split; [left; exact Hc|]. apply report_results.
Qed.

End Facts.

(** X1.  [doLogit] never changes the feature vector of the [Kmer] and never
    removes or reorders comments: the comments after the call are those
    before it followed by nothing, by "bfgs-fail", by "bfgs-fail" and
    "nr-fail", or by all three tags in that order. *)
Theorem doLogit_tag_trail `{Externals}
    (uninit : nat -> nat -> float) (k : Kmer) (y_train x_train : dmat) :
  let out := doLogit uninit k y_train x_train in
  get_x (snd out) = get_x k /\
  exists rest, comments (snd out) = comments k ++ rest /\ In rest tag_trails.
Proof.
  unfold doLogit.
  destruct (bind _ _) as [[x_design sp]|];
    [|cbn [snd]; split; [reflexivity|exists []; split; [now rewrite app_nil_r|left; reflexivity]]].
  pose proof (gradient_stage_frame uninit x_train y_train x_design sp k) as G.
  cbn zeta in G. destruct G as (Gx & Gc & _).
  destruct (gradient_stage uninit x_train y_train x_design sp k) as [[[]|e] k1];
    cbn [fst snd] in *.
  - split; [exact Gx|]. exists []. split; [now rewrite app_nil_r|left; reflexivity].
  - pose proof (plain_stage_frame (add_comment "bfgs-fail" k1) y_train x_design) as N.
    cbn zeta in N. destruct N as (Nx & N).
    split; [rewrite Nx; exact Gx|].
    cbn [add_comment comments] in N. rewrite Gc in N.
    destruct N as [([Hc|Hc] & _)|(Hc & _)].
    + exists ["bfgs-fail"%string]. split; [exact Hc|right; left; reflexivity].
    + exists ["bfgs-fail"%string; "nr-fail"%string].
      split; [rewrite Hc; now rewrite <- app_assoc|right; right; left; reflexivity].
    + exists ["bfgs-fail"%string; "nr-fail"%string; "firth-fail"%string].
      split; [rewrite Hc; now rewrite <- app_assoc|right; right; right; left; reflexivity].
Qed.

(** X2.  When [doLogit] returns normally the [Kmer] holds a coefficient, a
    standard error and a p-value, or else its comments end in the three
    failure tags and its standard error and p-value are as before the call.
    When it leaves by an exception the standard error and the p-value are
    as before the call. *)
Theorem doLogit_results_or_tags `{Externals}
    (uninit : nat -> nat -> float) (k : Kmer) (y_train x_train : dmat) :
  let out := doLogit uninit k y_train x_train in
  match fst out with
  | Ok _ =>
      complete (snd out) \/
      (comments (snd out)
       = comments k ++ ["bfgs-fail"%string; "nr-fail"%string; "firth-fail"%string] /\
       same_statistics k (snd out))
  | Throw _ => same_statistics k (snd out)
  end.
Proof.
  unfold doLogit.
  destruct (bind _ _) as [[x_design sp]|]; [|cbn [fst snd]; split; reflexivity].
  pose proof (gradient_stage_frame uninit x_train y_train x_design sp k) as G.
  cbn zeta in G. destruct G as (_ & Gc & Gr).
  destruct (gradient_stage uninit x_train y_train x_design sp k) as [[[]|e] k1];
    cbn [fst snd] in *.
  - left. exact Gr.
  - pose proof (plain_stage_frame (add_comment "bfgs-fail" k1) y_train x_design) as N.
    cbn zeta in N. destruct N as (_ & N).
    assert (Hk : forall k', same_statistics (add_comment "bfgs-fail" k1) k' ->
                            same_statistics k k').
    { intros k' [S1 S2]. destruct Gr as [G1 G2]. simpl in S1, S2.
      split; congruence. }
    destruct N as [(_ & Hr)|(Hc & Ho & _ & Hs)].
    + destruct (fst (newtonRaphson _ y_train x_design false)).
      * left. exact Hr.
      * apply Hk, Hr.
    + rewrite Ho. right. split; [|apply Hk, Hs].
      rewrite Hc. cbn [add_comment comments]. rewrite Gc.
      now rewrite <- app_assoc.
Qed.

End FitFrame.

Module FitEdges.
Import Arma ArmaFacts Logit FitFacts Vocabulary.
Local Open Scope nat_scope.

(** Follow a chain of binds that ended in [Ok]. *)
Ltac peel H :=
  repeat match type of H with
         | bind ?r _ = Ok _ =>
             let E := fresh "E" in
             destruct r eqn:E; cbn [bind] in H; [|discriminate H]
         end.

Section Facts.
Context `{Externals}.

Lemma zip_mat_size what f A B C :
  zip_mat what f A B = Ok C -> n_rows C = n_rows A /\ n_cols C = n_cols A.
Proof.
  unfold zip_mat. destruct (same_size A B); [|discriminate].
  intros E. injection E as <-. rewrite n_rows_tabulate, n_cols_tabulate.
  split; reflexivity.
Qed.

Lemma sub_mismatch A B :
  same_size A B = false -> sub A B = Throw "subtraction".
Proof. intros E. unfold sub, zip_mat. now rewrite E. Qed.

(** Both updates end in [b0 + step]: the new iterate has the size of the
    old one. *)
Lemma update_size firth x_design y_train y_pred V b0 b1 :
  (if firth : bool
   then firth_update x_design y_train y_pred V b0
   else plain_update x_design y_train y_pred V b0) = Ok b1 ->
  n_rows b1 = n_rows b0 /\ n_cols b1 = n_cols b0.
Proof.
  destruct firth; unfold firth_update, plain_update; intros E; peel E;
    apply zip_mat_size in E; exact E.
Qed.

(** Both updates subtract the predictions from the response. *)
Lemma update_needs_response firth x_design y_train y_pred V b0 :
  same_size y_train y_pred = false ->
  exists e,
    (if firth : bool
     then firth_update x_design y_train y_pred V b0
     else plain_update x_design y_train y_pred V b0) = Throw e.
Proof.
  intros Hs.
  destruct (if firth then _ else _) as [b1|e] eqn:E; [|eexists; reflexivity].
  exfalso. destruct firth; unfold firth_update, plain_update in E.
  - peel E.
    match goal with
    | Hsub : sub y_train y_pred = Ok _ |- _ =>
        rewrite (sub_mismatch _ _ Hs) in Hsub; discriminate Hsub
    end.
  - peel E.
    match goal with
    | Hsub : sub y_train y_pred = Ok _ |- _ =>
        rewrite (sub_mismatch _ _ Hs) in Hsub; discriminate Hsub
    end.
Qed.

(** A loop of at least one pass whose first pass throws. *)
Lemma stage_throws firth escalate k y_train x_design :
  1 <= max_nr_iterations ->
  (forall sp, newtonRaphson_starting_point y_train x_design = Ok sp ->
              exists e, iteration firth x_design y_train sp = Throw e) ->
  exists e, newtonRaphson_stage firth escalate k y_train x_design = (Throw e, k).
Proof.
  intros Hmax Hit. unfold newtonRaphson_stage.
  destruct (newtonRaphson_starting_point y_train x_design) as [sp|e];
    [|eexists; reflexivity].
  destruct (Hit sp eq_refl) as (e & Ee).
  destruct max_nr_iterations as [|n]; [lia|]. cbn [iterate]. rewrite Ee.
  eexists; reflexivity.
Qed.

Lemma newtonRaphson_throws k y_train x_design :
  1 <= max_nr_iterations ->
  (forall firth sp, newtonRaphson_starting_point y_train x_design = Ok sp ->
                    exists e, iteration firth x_design y_train sp = Throw e) ->
  forall firth, exists e, newtonRaphson k y_train x_design firth = (Throw e, k).
Proof.
  intros Hmax Hit firth. unfold newtonRaphson.
  destruct firth; apply stage_throws; auto.
Qed.

Lemma newtonRaphson_keeps_beta k y_train x_design firth :
  (exists b0, beta k = Some b0) ->
  exists b, beta (snd (newtonRaphson k y_train x_design firth)) = Some b.
Proof.
  assert (Hrep : forall back V k', (exists b0, beta k' = Some b0) ->
                   exists b, beta (snd (report back V k')) = Some b).
  { intros back V k' Hb. unfold report.
    destruct (elem1 back 1); [|exact Hb].
    destruct (elem V 1 1); eexists; reflexivity. }
  assert (Hstage : forall firth' escalate k',
            (forall k'', (exists b0, beta k'' = Some b0) ->
                         exists b, beta (snd (escalate k'')) = Some b) ->
            (exists b0, beta k' = Some b0) ->
            exists b, beta (snd (newtonRaphson_stage firth' escalate k'
                                   y_train x_design)) = Some b).
  { intros firth' escalate k' Hesc Hb. unfold newtonRaphson_stage.
    destruct (newtonRaphson_starting_point y_train x_design); [|exact Hb].
    destruct (iterate firth' x_design y_train max_nr_iterations 1 _ _)
      as [[[[size back] V] broke]|]; [|exact Hb].
    destruct (size =? max_nr_iterations).
    - destruct (negb firth'); [apply Hesc|]; exact Hb.
    - apply Hrep, Hb. }
  intros Hb. unfold newtonRaphson. destruct firth.
  - apply Hstage; [intros k'' Hk; exact Hk|exact Hb].
  - apply Hstage; [|exact Hb].
    intros k'' Hk. apply Hstage; [intros k3 Hk3; exact Hk3|exact Hk].
Qed.

End Facts.

(** X3.  The gradient stage writes the coefficient before it computes the
    covariance matrix.  When [find_max] returns and the covariance or its
    element (1,1) then throws, the cascade goes on with that coefficient
    already written: the feature ends with "bfgs-fail" among its comments
    and with a coefficient, whatever the later stages do. *)
Theorem gradient_failure_keeps_coefficient `{Externals}
    (uninit : nat -> nat -> float) (k : Kmer)
    (y_train x_train x_design sp b_vector : dmat) (b_1 : float) (e : string) :
  join_rows (ones (n_rows x_train) 1) x_train = Ok x_design ->
  doLogit_starting_point y_train x_design = Ok sp ->
  find_max x_train y_train sp = Ok b_vector ->
  elem1 b_vector 1 = Ok b_1 ->
  bind (varCovarMat uninit x_design b_vector) (fun V => elem V 1 1) = Throw e ->
  let out := doLogit uninit k y_train x_train in
  out = newtonRaphson (add_comment "bfgs-fail" (set_beta b_1 k)) y_train x_design false /\
  (exists b, beta (snd out) = Some b) /\
  exists rest, comments (snd out) = comments k ++ "bfgs-fail"%string :: rest.
Proof.
  intros Ej Es Ef Eb Ev out.
  assert (Eo : out = newtonRaphson (add_comment "bfgs-fail" (set_beta b_1 k))
                       y_train x_design false).
  { subst out. unfold doLogit. rewrite Ej. cbn [bind]. rewrite Es. cbn [bind].
    unfold gradient_stage. rewrite Ef, Eb, Ev. reflexivity. }
  split; [exact Eo|]. rewrite Eo. split.
  - apply newtonRaphson_keeps_beta. eexists; reflexivity.
  - pose proof (FitFrame.plain_stage_frame
                  (add_comment "bfgs-fail" (set_beta b_1 k)) y_train x_design) as N.
    cbn zeta in N. destruct N as (_ & [([Hc|Hc] & _)|(Hc & _)]);
      rewrite Hc; cbn [add_comment set_beta comments]; rewrite <- ?app_assoc;
      eexists; reflexivity.
Qed.

Lemma gradient_failure_keeps_coefficient_witness :
  let E := ReferenceMore.reference_wide in
  let k := Reference.fresh ReferenceMore.two_features in
  let out := @doLogit E (fun _ _ => nan) k Reference.phenotype
               ReferenceMore.two_features in
  join_rows (ones (n_rows ReferenceMore.two_features) 1) ReferenceMore.two_features
    = Ok ReferenceMore.two_features_design /\
  @doLogit_starting_point E Reference.phenotype ReferenceMore.two_features_design
    = Ok ReferenceMore.two_features_start /\
  @find_max E ReferenceMore.two_features Reference.phenotype
    ReferenceMore.two_features_start = Ok (colvec [0; 0.5; 0.25]%float) /\
  elem1 (colvec [0; 0.5; 0.25]%float) 1 = Ok 0.5%float /\
  bind (@varCovarMat E (fun _ _ => nan) ReferenceMore.two_features_design
          (colvec [0; 0.5; 0.25]%float)) (fun V => elem V 1 1)
    = Throw "inv_covar: not a 2 x 2 matrix" /\
  out = @newtonRaphson E (add_comment "bfgs-fail" (set_beta 0.5%float k))
          Reference.phenotype ReferenceMore.two_features_design false /\
  (exists b, beta (snd out) = Some b) /\
  exists rest, comments (snd out) = comments k ++ "bfgs-fail"%string :: rest.
Proof.
  intros E k out.
  assert (Ej : join_rows (ones (n_rows ReferenceMore.two_features) 1)
                 ReferenceMore.two_features = Ok ReferenceMore.two_features_design)
    by (vm_compute; reflexivity).
  assert (Es : @doLogit_starting_point E Reference.phenotype
                 ReferenceMore.two_features_design
               = Ok ReferenceMore.two_features_start) by (vm_compute; reflexivity).
  assert (Ef : @find_max E ReferenceMore.two_features Reference.phenotype
                 ReferenceMore.two_features_start = Ok (colvec [0; 0.5; 0.25]%float))
    by reflexivity.
  assert (Eb : elem1 (colvec [0; 0.5; 0.25]%float) 1 = Ok 0.5%float)
    by (vm_compute; reflexivity).
  assert (Ev : bind (@varCovarMat E (fun _ _ => nan) ReferenceMore.two_features_design
                       (colvec [0; 0.5; 0.25]%float)) (fun V => elem V 1 1)
               = Throw "inv_covar: not a 2 x 2 matrix") by (vm_compute; reflexivity).
  split; [exact Ej|]. split; [exact Es|]. split; [exact Ef|]. split; [exact Eb|].
  split; [exact Ev|].
  exact (@gradient_failure_keeps_coefficient E (fun _ _ => nan) k Reference.phenotype
           ReferenceMore.two_features ReferenceMore.two_features_design
           ReferenceMore.two_features_start (colvec [0; 0.5; 0.25]%float)
           0.5%float "inv_covar: not a 2 x 2 matrix" Ej Es Ef Eb Ev).
Defined.

(** X4.  With an empty response [mean] throws: [doLogit] leaves by that
    exception before the optimiser is called, and so does [newtonRaphson]
    before its loop; neither writes to the [Kmer]. *)
Theorem empty_response_throws `{Externals}
    (uninit : nat -> nat -> float) (k : Kmer) (y_train x_train : dmat) :
  n_elem y_train = 0 ->
  doLogit uninit k y_train x_train = (Throw "mean(): object has no elements", k) /\
  forall x_design firth,
    newtonRaphson k y_train x_design firth
    = (Throw "mean(): object has no elements", k).
Proof.
  intros Hy.
  assert (Em : start_intercept y_train = Throw "mean(): object has no elements").
  { unfold start_intercept, mean. rewrite Hy. reflexivity. }
  split.
  - unfold doLogit. destruct (StartingPoint.design_matrix x_train) as (xd & -> & _).
    cbn [bind]. unfold doLogit_starting_point. rewrite Em. reflexivity.
  - intros x_design firth. unfold newtonRaphson, newtonRaphson_stage,
      newtonRaphson_starting_point. rewrite Em. destruct firth; reflexivity.
Qed.

Lemma empty_response_throws_witness :
  let E := Reference.reference_fit in
  let k := Reference.fresh Reference.mixed in
  n_elem ReferenceMore.no_response = 0 /\
  @doLogit E (fun _ _ => nan) k ReferenceMore.no_response Reference.mixed
    = (Throw "mean(): object has no elements", k) /\
  forall x_design firth,
    @newtonRaphson E k ReferenceMore.no_response x_design firth
    = (Throw "mean(): object has no elements", k).
Proof.
  intros E k.
  assert (Hy : n_elem ReferenceMore.no_response = 0) by reflexivity.
  split; [exact Hy|].
  exact (@empty_response_throws E (fun _ _ => nan) k ReferenceMore.no_response
           Reference.mixed Hy).
Defined.

(** X5.  Every pass of the loop subtracts the predictions, one per row of
    the design matrix, from the response.  When the response is not a
    column with one element per row of the design matrix, [newtonRaphson]
    leaves by an exception in its first pass, plain or Firth, and writes
    nothing to the [Kmer]. *)
Theorem response_size_mismatch_throws `{Externals}
    (k : Kmer) (y_train x_design : dmat) :
  1 <= max_nr_iterations ->
  n_rows y_train <> n_rows x_design \/ n_cols y_train <> 1 ->
  forall firth, exists e, newtonRaphson k y_train x_design firth = (Throw e, k).
Proof.
  intros Hmax Hy. apply newtonRaphson_throws; [exact Hmax|].
  intros firth sp Es. apply newtonRaphson_starting_point_size in Es.
  destruct Es as [_ Ec]. unfold iteration.
  destruct (predictLogitProbs x_design sp) as [y_pred|] eqn:Ep; [|eexists; reflexivity].
  apply predictLogitProbs_size in Ep. destruct Ep as [Pr Pc]. cbn [bind].
  destruct (iteration_covariance x_design y_pred) as [V|]; [|eexists; reflexivity].
  cbn [bind].
  assert (Hs : same_size y_train y_pred = false).
  { unfold same_size. rewrite Pr, Pc, Ec.
    destruct Hy as [Hy|Hy]; apply andb_false_iff; [left|right];
      now apply Nat.eqb_neq. }
  destruct (@update_needs_response _ firth x_design y_train y_pred V sp Hs) as (e & ->).
  eexists; reflexivity.
Qed.

Lemma response_size_mismatch_throws_witness :
  let E := Reference.reference_fit in
  let k := Reference.fresh Reference.mixed in
  1 <= @max_nr_iterations E /\
  (n_rows ReferenceMore.short_response <> n_rows Reference.mixed_design \/
   n_cols ReferenceMore.short_response <> 1) /\
  forall firth, exists e,
    @newtonRaphson E k ReferenceMore.short_response Reference.mixed_design firth
    = (Throw e, k).
Proof.
  intros E k.
  assert (Hmax : 1 <= @max_nr_iterations E) by (vm_compute; lia).
  assert (Hy : n_rows ReferenceMore.short_response <> n_rows Reference.mixed_design \/
               n_cols ReferenceMore.short_response <> 1)
    by (left; vm_compute; lia).
  split; [exact Hmax|]. split; [exact Hy|].
  exact (@response_size_mismatch_throws E k ReferenceMore.short_response
           Reference.mixed_design Hmax Hy).
Defined.

(** X6.  The loop reads element 1 of every iterate.  With a design matrix of
    fewer than two columns there is no such element: [newtonRaphson] leaves
    by an exception, at the starting point or in its first pass, and writes
    nothing to the [Kmer]. *)
Theorem narrow_design_throws `{Externals}
    (k : Kmer) (y_train x_design : dmat) :
  1 <= max_nr_iterations -> n_cols x_design <= 1 ->
  forall firth, exists e, newtonRaphson k y_train x_design firth = (Throw e, k).
Proof.
  intros Hmax Hx. apply newtonRaphson_throws; [exact Hmax|].
  intros firth sp Es. apply newtonRaphson_starting_point_size in Es.
  destruct Es as [Er Ec]. unfold iteration.
  destruct (predictLogitProbs x_design sp) as [y_pred|]; [|eexists; reflexivity].
  cbn [bind].
  destruct (iteration_covariance x_design y_pred) as [V|]; [|eexists; reflexivity].
  cbn [bind].
  destruct (if firth then _ else _) as [b1|] eqn:Eu; [|eexists; reflexivity].
  apply update_size in Eu. destruct Eu as [Ur Uc]. cbn [bind].
  unfold elem1 at 1, n_elem. rewrite Ur, Uc, Er, Ec.
  destruct (Nat.ltb_spec 1 (n_cols x_design * 1)) as [Hlt|_]; [lia|].
  eexists; reflexivity.
Qed.

Lemma narrow_design_throws_witness :
  let E := Reference.reference_fit in
  let k := Reference.fresh Reference.mixed in
  1 <= @max_nr_iterations E /\ n_cols ReferenceMore.narrow_design <= 1 /\
  forall firth, exists e,
    @newtonRaphson E k Reference.phenotype ReferenceMore.narrow_design firth
    = (Throw e, k).
Proof.
  intros E k.
  assert (Hmax : 1 <= @max_nr_iterations E) by (vm_compute; lia).
  assert (Hx : n_cols ReferenceMore.narrow_design <= 1) by (vm_compute; lia).
  split; [exact Hmax|]. split; [exact Hx|].
  exact (@narrow_design_throws E k Reference.phenotype ReferenceMore.narrow_design
           Hmax Hx).
Defined.

End FitEdges.

Module InformationMatrix.
Import Arma ArmaFacts Logit FitFacts InferenceFacts.
Local Open Scope nat_scope.

Section Facts.
Context `{Externals}.

Variables x y_trans : dmat.
Hypothesis rows_agree : n_rows y_trans = n_rows x.
Hypothesis one_column : n_cols y_trans = 1.

Lemma information_row_total i js :
  i < n_cols x -> Forall (fun j => j < n_cols x) js ->
  forall I, exists I', information_row x y_trans i js I = Ok I'.
Proof.
  intros Hi. induction js as [|j js IH]; intros Hjs I; simpl.
  - eexists; reflexivity.
  - inversion Hjs as [|? ? Hj Hjs']; subst.
    rewrite (information_entry_sum x y_trans rows_agree one_column Hi Hj).
    cbn [bind]. apply IH. exact Hjs'.
Qed.

Lemma information_rows_total j_max is_ :
  j_max <= n_cols x -> Forall (fun i => i < n_cols x) is_ ->
  forall I, exists I', information_rows x y_trans j_max is_ I = Ok I'.
Proof.
  intros Hmax. induction is_ as [|i is_ IH]; intros His I; simpl.
  - eexists; reflexivity.
  - inversion His as [|? ? Hi His']; subst.
    destruct (information_row_total (js:=seq i (j_max - i)) Hi) with (I:=I)
      as (I1 & ->).
    { apply Forall_forall. intros j Hj. apply in_seq in Hj. lia. }
    cbn [bind]. apply IH. exact His'.
Qed.

End Facts.

(** X7.  For a coefficient vector with one element per column of [x], the
    matrix that [varCovarMat] allocates without initialising is filled
    completely before it is inverted: its elements do not depend on what the
    storage held, it is symmetric, and element (i,j) is the sum over the
    samples of [p (1 - p) x(.,i) x(.,j)] for the predicted probabilities
    [p]. *)
Theorem information_matrix_filled `{Externals} (x b : dmat) :
  n_cols b = 1 -> n_cols x = n_rows b ->
  exists y_pred y_trans,
    predictLogitProbs x b = Ok y_pred /\
    schur y_pred (map_mat (fun p => 1 - p)%float y_pred) = Ok y_trans /\
    forall uninit, exists I,
      information uninit x b = Ok I /\
      n_rows I = n_cols x /\ n_cols I = n_cols x /\
      forall i j, i < n_cols x -> j < n_cols x ->
        at_ I i j = at_ I j i /\
        at_ I i j = information_sum x y_trans (Nat.min i j) (Nat.max i j).
Proof.
  intros Hb Hx.
  assert (Hp : n_elem b = n_cols x) by (unfold n_elem; rewrite Hb; lia).
  destruct (predictLogitProbs x b) as [y_pred|] eqn:Ep.
  2:{ unfold predictLogitProbs, mul in Ep. rewrite Hx, Nat.eqb_refl in Ep.
      discriminate. }
  destruct (predictLogitProbs_size _ _ Ep) as [Pr Pc].
  destruct (schur y_pred (map_mat (fun p => 1 - p)%float y_pred)) as [y_trans|] eqn:Et.
  2:{ unfold schur, zip_mat, same_size, map_mat in Et.
      rewrite n_rows_tabulate, n_cols_tabulate, !Nat.eqb_refl in Et. discriminate. }
  destruct (FitEdges.zip_mat_size _ _ _ _ Et) as [Tr Tc].
  exists y_pred, y_trans. split; [reflexivity|]. split; [exact Et|].
  intros uninit.
  assert (Htot : exists I, information uninit x b = Ok I).
  { unfold information. rewrite Ep. cbn [bind]. rewrite Et. cbn [bind n_rows n_cols].
    apply information_rows_total; try congruence.
    - lia.
    - apply Forall_forall. intros i Hi. apply in_seq in Hi. lia. }
  destruct Htot as (I & EI). exists I. split; [exact EI|].
  destruct (@information_elements _ uninit x b I Hb EI)
    as (y_pred' & y_trans' & Ep' & Et' & Ir & Ic & Hel).
  rewrite Ep in Ep'. injection Ep' as <-. rewrite Et in Et'. injection Et' as <-.
  split; [congruence|]. split; [congruence|].
  intros i j Hi Hj. rewrite !Hel by lia.
  rewrite (Nat.min_comm j i), (Nat.max_comm j i). split; reflexivity.
Qed.

Lemma information_matrix_filled_witness :
  let E := Reference.reference_fit in
  n_cols Reference.mixed_fitted = 1 /\
  n_cols Reference.mixed_design = n_rows Reference.mixed_fitted /\
  exists y_pred y_trans,
    @predictLogitProbs E Reference.mixed_design Reference.mixed_fitted = Ok y_pred /\
    schur y_pred (map_mat (fun p => 1 - p)%float y_pred) = Ok y_trans /\
    forall uninit, exists I,
      @information E uninit Reference.mixed_design Reference.mixed_fitted = Ok I /\
      n_rows I = n_cols Reference.mixed_design /\
      n_cols I = n_cols Reference.mixed_design /\
      forall i j, i < n_cols Reference.mixed_design ->
                  j < n_cols Reference.mixed_design ->
        at_ I i j = at_ I j i /\
        at_ I i j = information_sum Reference.mixed_design y_trans
                      (Nat.min i j) (Nat.max i j).
Proof.
  intros E.
  assert (Hb : n_cols Reference.mixed_fitted = 1) by (vm_compute; reflexivity).
  assert (Hx : n_cols Reference.mixed_design = n_rows Reference.mixed_fitted)
    by (vm_compute; reflexivity).
  split; [exact Hb|]. split; [exact Hx|].
  exact (@information_matrix_filled E Reference.mixed_design Reference.mixed_fitted
           Hb Hx).
Defined.

End InformationMatrix.

(** ** Further properties of the distance engine *)

Module DistanceMetric.
Import Distance.
Local Open Scope Z_scope.

Lemma fold_add_from (l : list Z) : forall a,
  fold_left Z.add l a = a + fold_left Z.add l 0.
Proof.
  induction l as [|x l IH]; intros a; simpl; [lia|].
  rewrite (IH (a + x)), (IH x). lia.
Qed.

Lemma distance_cons (a b : Z) (u v : list Z) :
  distanceFunction (a :: u) (b :: v) = Z.abs (a - b) + distanceFunction u v.
Proof.
  unfold distanceFunction, accu. simpl. apply fold_add_from.
Qed.

Lemma distance_nil_l (v : list Z) : distanceFunction [] v = 0.
Proof. reflexivity. Qed.

Lemma distance_nil_r (u : list Z) : distanceFunction u [] = 0.
Proof. destruct u; reflexivity. Qed.

Lemma distance_nonneg (u : list Z) : forall v, 0 <= distanceFunction u v.
Proof.
  induction u as [|a u IH]; intros [|b v];
    rewrite ?distance_nil_l, ?distance_nil_r, ?distance_cons; try lia.
  specialize (IH v). lia.
Qed.



End DistanceMetric.

Module DistanceQueue.
Import Distance DistanceFacts.
Local Open Scope nat_scope.

Section Facts.
Context {eT : Type} `{ElemType eT}.

Lemma inner_body_bound (inMat : mat eT) threads i ref_row st j :
  1 <= threads -> length (snd st) <= threads ->
  exists st', inner_body inMat threads i ref_row st j = Some st' /\
              length (snd st') <= threads.
Proof.
  intros Ht Hl. destruct st as [dist q]. unfold inner_body. cbn [snd] in Hl.
  destruct (i =? j); [eexists; split; [reflexivity|exact Hl]|].
  destruct (Nat.eqb_spec (length q) threads) as [Hfull|Hnf].
  - destruct q as [|d q']; [simpl in Hfull; lia|].
    eexists; split; [reflexivity|]. cbn [snd]. rewrite length_app. simpl in *. lia.
  - eexists; split; [reflexivity|]. cbn [snd]. rewrite length_app. simpl. lia.
Qed.

Lemma inner_loop_bound (inMat : mat eT) threads i ref_row js : forall st,
  1 <= threads -> length (snd st) <= threads ->
  exists st', inner_loop inMat threads i ref_row js st = Some st' /\
              length (snd st') <= threads.
Proof.
  induction js as [|j js IH]; intros st Ht Hl; simpl.
  - eexists; split; [reflexivity|exact Hl].
  - destruct (inner_body_bound inMat i ref_row st j Ht Hl) as (st1 & -> & Hl1).
    apply IH; assumption.
Qed.

Lemma outer_loop_bound (inMat : mat eT) threads matSize is_ : forall st,
  1 <= threads -> length (snd st) <= threads ->
  exists st', outer_loop inMat threads matSize is_ st = Some st' /\
              length (snd st') <= threads.
Proof.
  induction is_ as [|i is_ IH]; intros st Ht Hl; simpl.
  - eexists; split; [reflexivity|exact Hl].
  - destruct (inner_loop_bound inMat i (row inMat i) (seq i (matSize - i)) st Ht Hl)
      as (st1 & -> & Hl1).
    apply IH; assumption.
Qed.

End Facts.

(** X9.  With at least one worker the queue of pending results never holds
    more than [threads] elements: one pass of the inner loop keeps the bound
    and never takes the front of an empty queue, and so do the loops from
    the empty queue over any rows and columns. *)
Theorem queue_never_exceeds_workers {eT : Type} `{ElemType eT}
    (inMat : mat eT) (threads : nat) :
  1 <= threads ->
  (forall i ref_row st j, length (snd st) <= threads ->
     exists st', inner_body inMat threads i ref_row st j = Some st' /\
                 length (snd st') <= threads) /\
  (forall matSize is_ dist,
     exists st', outer_loop inMat threads matSize is_ (dist, []) = Some st' /\
                 length (snd st') <= threads).
Proof.
  intros Ht. split.
  - intros i ref_row st j Hl. now apply inner_body_bound.
  - intros matSize is_ dist. apply outer_loop_bound; [exact Ht|simpl; lia].
Qed.

Lemma queue_never_exceeds_workers_witness :
  1 <= 2 /\
  (forall i ref_row st j, length (snd st) <= 2 ->
     exists st', inner_body sample_matrix 2 i ref_row st j = Some st' /\
                 length (snd st') <= 2) /\
  (forall matSize is_ dist,
     exists st', outer_loop sample_matrix 2 matSize is_ (dist, []) = Some st' /\
                 length (snd st') <= 2).
Proof.
  assert (Ht : 1 <= 2) by lia.
  split; [exact Ht|].
  exact (queue_never_exceeds_workers sample_matrix Ht).
Defined.



End DistanceQueue.

(** ** The number of dimensions asked of [metricMDS] *)

Module MDSEdges.
Import Arma ArmaFacts MDS MDSFacts.
Local Open Scope nat_scope.

Lemma to_uword_below_one (z : Z) :
  (- 2 ^ 31 < z <= 0)%Z -> (2 ^ 32 <= Z.of_nat (to_uword (z - 1)))%Z.
Proof.
  intros Hz. unfold to_uword.
  assert (E : ((z - 1) mod 2 ^ 64 = z - 1 + 2 ^ 64)%Z).
  { symmetry. apply Z.mod_unique with (q := (-1)%Z); lia. }
  rewrite E. lia.
Qed.

Lemma to_uword_above (z : Z) (n : nat) :
  (Z.of_nat n < z < 2 ^ 31)%Z -> n <= to_uword (z - 1).
Proof.
  intros Hz. unfold to_uword. rewrite Z.mod_small; lia.
Qed.

(** X11.  Asked for no dimension, a negative number of them, or more than
    there are samples, [metricMDS] does all its work and then throws from
    the selection of the columns: the last index, [dimensions - 1] turned
    into an unsigned index, is not below the number of columns. *)
Theorem metricMDS_dimensions_out_of_range `{Externals}
    (n : nat) (dist : dmat) (dimensions : Z) :
  n_rows dist = n -> n_cols dist = n -> eig_sym_shape n ->
  (Z.of_nat n < 2 ^ 32)%Z -> (- 2 ^ 31 < dimensions < 2 ^ 31)%Z ->
  (dimensions <= 0 \/ Z.of_nat n < dimensions)%Z ->
  metricMDS_of n dist dimensions
  = Throw "Mat::cols(): indices out of bounds or incorrectly used".
Proof.
  intros Dr Dc Hshape Hn Hint Hout.
  destruct (@double_centered_elements n dist Dr Dc) as (B & EB & Br & Bc & _).
  destruct (Hshape B Br Bc) as (Vr & Vc & Le).
  unfold metricMDS_of. rewrite EB. cbn [bind]. unfold embed.
  destruct (eig_sym B) as [eigval eigvec]. cbn [fst snd] in *.
  assert (Hse : n_elem (sqrt eigval) = n).
  { unfold n_elem, sqrt, map_mat. rewrite n_rows_tabulate, n_cols_tabulate.
    exact Le. }
  unfold mul_diagmat. rewrite Vc, Hse, Nat.eqb_refl. cbn [bind].
  unfold cols, fliplr. rewrite !n_cols_tabulate.
  assert (Hge : n <= to_uword (dimensions - 1)).
  { destruct Hout as [Hlow|Hhigh].
    - assert (Hu := @to_uword_below_one dimensions). lia.
    - apply to_uword_above. lia. }
  destruct (Nat.ltb_spec (to_uword (dimensions - 1)) n) as [Hlt|_]; [lia|].
  rewrite andb_false_r. reflexivity.
Qed.

Lemma metricMDS_dimensions_out_of_range_witness :
  let E := Reference.reference_fit in
  n_rows Reference.corners_dist = 4 /\ n_cols Reference.corners_dist = 4 /\
  @eig_sym_shape E 4 /\ (Z.of_nat 4 < 2 ^ 32)%Z /\ (- 2 ^ 31 < 5 < 2 ^ 31)%Z /\
  (5 <= 0 \/ Z.of_nat 4 < 5)%Z /\
  @metricMDS_of E 4 Reference.corners_dist 5
  = Throw "Mat::cols(): indices out of bounds or incorrectly used".
Proof.
  intros E.
  assert (Dr : n_rows Reference.corners_dist = 4) by reflexivity.
  assert (Dc : n_cols Reference.corners_dist = 4) by reflexivity.
  assert (Hn : (Z.of_nat 4 < 2 ^ 32)%Z) by reflexivity.
  assert (Hi : (- 2 ^ 31 < 5 < 2 ^ 31)%Z) by (split; reflexivity).
  assert (Ho : (5 <= 0 \/ Z.of_nat 4 < 5)%Z) by (right; reflexivity).
  split; [exact Dr|]. split; [exact Dc|].
  split; [exact MDSProperties.reference_eig_sym_shape|].
  split; [exact Hn|]. split; [exact Hi|]. split; [exact Ho|].
  exact (@metricMDS_dimensions_out_of_range E 4 Reference.corners_dist 5
           Dr Dc MDSProperties.reference_eig_sym_shape Hn Hi Ho).
Defined.

End MDSEdges.

(** ** What the matrix keeps when the tasks run at [get] *)

Module LateSymmetry.
Import Distance QueueVocabulary.
Local Open Scope nat_scope.

Section Facts.
Context {eT : Type} `{ElemType eT}.













End Facts.



End LateSymmetry.
